(** * micplot: chart-type selection, colour assignment and waterfall layout

    A shallow embedding of [src/micplot.py] and the properties of its
    natural-language specification.

    Modelling conventions.
    - Numbers.  Python floats and ints are rationals ([Qc], canonical
      fractions with Leibniz equality).  The arithmetic of the waterfall and
      of the label positions is exact.  The one place where rounding
      decides, the sum that [is_percentage_series] compares with 1, is the
      floating-point sum the installed pandas returns.  A missing value
      (pandas NaN) is [None] where the code creates one ([shift]) and
      removes it again ([fillna]).
    - pandas objects.  A [Series] is a named list of (label, value) rows, a
      [DataFrame] a list of labelled columns over a shared row index.
      Objects live in a heap and are passed by reference, because
      [plot_waterfall] writes into its argument.
    - The libraries.  What [src/] leaves to the installed pandas and numpy
      is a parameter [env] of the model: the floating-point sum of a column,
      the order a sort gives to equal values, and whether [squeeze] hands
      back the object it was called on.
    - The rendering engine (matplotlib / seaborn) is a log of the calls made
      to it; its axis limits are an unknown function [autoscale] of what has
      been drawn. *)

From Stdlib Require Import QArith Qcanon Qcabs.
From stdpp Require Import base numbers strings option list sorting.

Local Open Scope string_scope.
Local Open Scope Qc_scope.
Local Open Scope list_scope.

(* [[x]] is needed for one-element lists, not for absolute values *)
Disable Notation "[ q ]" : Qc_scope.

(** ** Numbers *)

Definition qc (n : Z) (d : positive) : Qc := Q2Qc (n # d).

Definition Qc_of_nat (n : nat) : Qc := Qc_of_Z (Z.of_nat n).

(** ** Exceptions and results *)

Inductive exn :=
  | TypeError
  | ValueError
  | IndexError
  | IndexingError
  | AttributeError
  | NotImplementedError
  | DanglingReference.   (* not a Python exception: a reference outside the heap *)

Inductive result (A : Type) :=
  | Ok (a : A)
  | Raise (e : exn).
Arguments Ok {A} a.
Arguments Raise {A} e.

Global Instance exn_eq_dec : EqDecision exn.
Proof. solve_decision. Defined.

Definition result_bind {A B} (r : result A) (f : A → result B) : result B :=
  match r with
  | Ok a => f a
  | Raise e => Raise e
  end.

Global Instance result_ret : MRet result := @Ok.
Global Instance result_mbind : MBind result := λ A B f r, result_bind r f.

(** ** The data model *)

(** Index labels: category names, integer positions, timestamps. *)
Inductive label :=
  | LStr (s : string)
  | LInt (z : Z)
  | LTime (t : Z).

Global Instance label_eq_dec : EqDecision label.
Proof. solve_decision. Defined.

(** [s_datetime] says whether the index is a [pd.DatetimeIndex]. *)
Record Series := mkSeries {
  s_name : option label;
  s_datetime : bool;
  s_rows : list (label * Qc)
}.

(** Column-major table.  [df_datetime] is the class of the row index,
    [df_coltime] that of the column index.  In a well-formed table every
    column has one value per row label. *)
Record DataFrame := mkFrame {
  df_datetime : bool;
  df_coltime : bool;
  df_index : list label;
  df_columns : list (label * list Qc)
}.

Definition frame_wf (d : DataFrame) : Prop :=
  Forall (λ c, length c.2 = length (df_index d)) (df_columns d).

(** What a Python variable named [data] can hold here.  [PScalar] stands
    for everything that is neither a Series nor a DataFrame (it is what
    [squeeze] returns for a single cell). *)
Inductive pdata :=
  | PScalar (q : Qc)
  | PSeries (s : Series)
  | PFrame (d : DataFrame).

Definition s_labels (s : Series) : list label := (s_rows s).*1.
Definition s_values (s : Series) : list Qc := (s_rows s).*2.

(** [len(data)] *)
Definition py_len (data : pdata) : result nat :=
  match data with
  | PScalar _ => Raise TypeError
  | PSeries s => Ok (length (s_rows s))
  | PFrame d => Ok (length (df_index d))
  end.

(** ** Colours *)

Definition HIGHLIGHT_COLOR : string := "purple".

Inductive highlight :=
  | HInt (h : Z)
  | HList (hs : list Z).

(** Python's reading of a position [i] in a sequence of length [n]:
    negative positions count from the end, anything outside [-n, n) raises
    IndexError. *)
Definition py_position (n : nat) (i : Z) : result nat :=
  if decide (0 ≤ i < Z.of_nat n)%Z then Ok (Z.to_nat i)
  else if decide (- Z.of_nat n ≤ i < 0)%Z then Ok (Z.to_nat (Z.of_nat n + i))
  else Raise IndexError.

(** [l[i] = x] on a Python list *)
Definition list_setitem {A} (l : list A) (i : Z) (x : A) : result (list A) :=
  p ← py_position (length l) i;
  Ok (<[p := x]> l).

(** The loop [for h in highlight: ...] of [define_colors]. *)
Fixpoint highlight_loop (len_data : Z) (hs : list Z) (color : list string)
    : result (list string) :=
  match hs with
  | [] => Ok color
  | h :: hs' =>
      let h := if decide (h < 0)%Z then (len_data + h)%Z else h in
      color ← list_setitem color h HIGHLIGHT_COLOR;
      highlight_loop len_data hs' color
  end.

Definition is_series (data : pdata) : bool :=
  match data with PSeries _ => true | _ => false end.

Definition is_frame (data : pdata) : bool :=
  match data with PFrame _ => true | _ => false end.

(** [data.shape[1]] of a DataFrame *)
Definition ncols (d : DataFrame) : nat := length (df_columns d).

Definition define_colors (hl : highlight) (data : pdata) (plottype : string)
    : result (list string) :=
  color ← (if is_series data || bool_decide (plottype = "scatter") then
             n ← py_len data; Ok (replicate n "lightgray")
           else
             match data with
             | PFrame d => Ok (replicate (ncols d) "lightgray")
             | _ => Raise TypeError
             end);
  match hl with
  | HList hs =>
      (* [for h in highlight]; [len(data)] is evaluated for a negative [h]
         only, and it cannot fail once [color] exists *)
      n ← py_len data;
      highlight_loop (Z.of_nat n) hs color
  | HInt h =>
      (* iterating an int raises TypeError, handled by [except] *)
      list_setitem color h HIGHLIGHT_COLOR
  end.

(** ** The libraries underneath

    What the module's behaviour depends on and [src/] does not decide: it
    is the business of the pandas and numpy that are installed. *)

(** What [obj.squeeze()] returns when no axis has length one. *)
Inductive squeeze_result :=
  | SameObject   (* the object it was called on: pandas before 2.0 *)
  | NewObject.   (* a new object, and what is written into it does not
                    reach the object it was made from: pandas 3.0 and later *)

(** pandas 2.x lies between the two and is not covered: there the object is
    new but shares its values with the one it was made from, so that a row
    added to it is not seen in the other while a value overwritten in it is. *)

Record Pandas := mkPandas {
  (** [series.sum()] of floating-point values.  The result is rounded, and
      how depends on the order in which numpy adds the values. *)
  series_sum : list Qc → Qc;
  (** The rows as numpy's default sort orders them when some values are
      equal; that sort is not stable, and the order of equal values differs
      between numpy builds. *)
  sort_ties : list (label * Qc) → list (label * Qc);
  squeeze_nothing : squeeze_result
}.

(** ** Chart-type selection *)

(** The exact sum. *)
Definition Qc_sum (l : list Qc) : Qc := foldr Qcplus 0 l.

(** [math.isclose(a, b)] with its defaults [rel_tol=1e-09], [abs_tol=0.0].
    Python evaluates the comparison in binary64; it is written here on the
    exact values of its two arguments. *)
Definition rel_tol : Qc := qc 1 1000000000.
Definition abs_tol : Qc := 0.

Definition isclose (a b : Qc) : bool :=
  bool_decide (a = b)
  || (let diff := Qcabs (b - a) in
      bool_decide (diff ≤ Qcabs (rel_tol * b))
      || bool_decide (diff ≤ Qcabs (rel_tol * a))
      || bool_decide (diff ≤ abs_tol)).

Section Libraries.

Variable env : Pandas.

(** [series.between(0, 1).all() and math.isclose(series.sum(), 1)] *)
Definition is_percentage_series (vals : list Qc) : bool :=
  forallb (λ v, bool_decide (0 ≤ v) && bool_decide (v ≤ 1)) vals
  && isclose (series_sum env vals) 1.

(** [data.apply(is_percentage_series).all()] *)
Definition all_columns_percentage (d : DataFrame) : bool :=
  forallb (λ c, is_percentage_series c.2) (df_columns d).

(** [isinstance(data.index, pd.DatetimeIndex)] *)
Definition index_is_datetime (data : pdata) : result bool :=
  match data with
  | PScalar _ => Raise AttributeError      (* no [.index] *)
  | PSeries s => Ok (s_datetime s)
  | PFrame d => Ok (df_datetime d)
  end.

Definition pick_plottype (data : pdata) : result string :=
  dt ← index_is_datetime data;
  if (dt : bool) then
    n ← py_len data;
    if decide (n < 10)%nat then Ok "bar_timeseries"
    else Ok "line_timeseries"
  else
    match data with
    | PSeries s =>
        if is_percentage_series (s_values s) then Ok "waterfall"
        else Ok "bar"
    | PFrame d =>
        if all_columns_percentage d then Ok "composition_comparison"
        else Ok "scatter"
    | PScalar _ => Raise AttributeError   (* not reached: no [.index] *)
    end.

(** ** pandas operations on values

    The part of pandas the module calls, written on values.  Operations that
    return a new object are pure functions here; the one operation that
    writes into an existing object ([.loc[...] = ...]) is applied to the heap
    further down. *)

(** [cumsum()]: running totals, left to right. *)
Fixpoint cumsum_from (acc : Qc) (l : list Qc) : list Qc :=
  match l with
  | [] => []
  | x :: l' => (acc + x) :: cumsum_from (acc + x) l'
  end.

Definition cumsum (l : list Qc) : list Qc := cumsum_from 0 l.

(** [shift(1)]: every value moves one position down, the first one is
    missing (NaN) and the last one falls off. *)
Definition shift (l : list Qc) : list (option Qc) :=
  take (length l) (None :: (Some <$> l)).

(** [fillna(v)] *)
Definition fillna (v : Qc) (l : list (option Qc)) : list Qc :=
  default v <$> l.

(** [data.cumsum().shift(1).fillna(0)] on one column of values *)
Definition running_offsets (l : list Qc) : list Qc :=
  fillna 0 (shift (cumsum l)).

Definition TOTAL : label := LStr "total".

(** [obj.loc['total'] = v] on an index with its column of values: rows
    already labelled 'total' are overwritten, otherwise a row is added at
    the end ("setting with enlargement"). *)
Definition loc_set_rows (rows : list (label * Qc)) (key : label) (v : Qc)
    : list (label * Qc) :=
  if decide (key ∈ rows.*1) then
    (λ r, if decide (r.1 = key) then (r.1, v) else r) <$> rows
  else rows ++ [(key, v)].

Definition loc_set_column (index : list label) (key : label) (v : Qc)
    (col : list Qc) : list Qc :=
  (loc_set_rows (zip index col) key v).*2.

Definition loc_set_index (index : list label) (key : label) : list label :=
  if decide (key ∈ index) then index else index ++ [key].

(** [data.sum()]: a number for a Series, one number per column for a
    DataFrame. *)
Inductive totals :=
  | TotalOf (q : Qc)
  | TotalsOf (qs : list Qc).

Definition pd_sum (data : pdata) : result totals :=
  match data with
  | PScalar _ => Raise AttributeError
  | PSeries s => Ok (TotalOf (Qc_sum (s_values s)))
  | PFrame d => Ok (TotalsOf ((λ c, Qc_sum c.2) <$> df_columns d))
  end.

(** The index stops being a DatetimeIndex when the string label is added. *)
Definition enlarged_datetime (dt : bool) (index : list label) (key : label) : bool :=
  if decide (key ∈ index) then dt else false.

(** [data.loc[key] = total] with [total = data.sum()], and
    [blank.loc[key] = 0]: the value written in column [i] is [nth i]. *)
Definition loc_set (data : pdata) (key : label) (v : nat → Qc) : result pdata :=
  match data with
  | PScalar _ => Raise AttributeError
  | PSeries s =>
      Ok (PSeries (mkSeries (s_name s)
                            (enlarged_datetime (s_datetime s) (s_labels s) key)
                            (loc_set_rows (s_rows s) key (v 0%nat))))
  | PFrame d =>
      Ok (PFrame (mkFrame (enlarged_datetime (df_datetime d) (df_index d) key)
                          (df_coltime d)
                          (loc_set_index (df_index d) key)
                          (imap (λ i c, (c.1, loc_set_column (df_index d) key (v i) c.2))
                                (df_columns d))))
  end.

Definition totals_at (t : totals) (i : nat) : Qc :=
  match t with
  | TotalOf q => q
  | TotalsOf qs => default 0 (qs !! i)
  end.

(** [data.cumsum().shift(1).fillna(0)] *)
Definition pd_running_offsets (data : pdata) : result pdata :=
  match data with
  | PScalar _ => Raise AttributeError
  | PSeries s =>
      Ok (PSeries (mkSeries (s_name s) (s_datetime s)
                            (zip (s_labels s) (running_offsets (s_values s)))))
  | PFrame d =>
      Ok (PFrame (mkFrame (df_datetime d) (df_coltime d) (df_index d)
                          ((λ c, (c.1, running_offsets c.2)) <$> df_columns d)))
  end.

(** [data.cumsum()] *)
Definition pd_cumsum (data : pdata) : result pdata :=
  match data with
  | PScalar _ => Raise AttributeError
  | PSeries s =>
      Ok (PSeries (mkSeries (s_name s) (s_datetime s)
                            (zip (s_labels s) (cumsum (s_values s)))))
  | PFrame d =>
      Ok (PFrame (mkFrame (df_datetime d) (df_coltime d) (df_index d)
                          ((λ c, (c.1, cumsum c.2)) <$> df_columns d)))
  end.

(** [obj[::-1]]: the rows in reverse order. *)
Definition pd_reverse (data : pdata) : result pdata :=
  match data with
  | PScalar _ => Raise TypeError
  | PSeries s => Ok (PSeries (mkSeries (s_name s) (s_datetime s) (reverse (s_rows s))))
  | PFrame d =>
      Ok (PFrame (mkFrame (df_datetime d) (df_coltime d) (reverse (df_index d))
                          ((λ c, (c.1, reverse c.2)) <$> df_columns d)))
  end.

(** [a + b] and [a.add(b).div(2)] for two objects that share their index
    and columns, as they always do where the module adds them; pandas then
    adds position by position. *)
Definition zip_rows (f : Qc → Qc → Qc) (a b : list (label * Qc)) : list (label * Qc) :=
  zip_with (λ x y, (x.1, f x.2 y.2)) a b.

Definition pd_zip_with (f : Qc → Qc → Qc) (a b : pdata) : result pdata :=
  match a, b with
  | PSeries s, PSeries t =>
      Ok (PSeries (mkSeries (s_name s) (s_datetime s) (zip_rows f (s_rows s) (s_rows t))))
  | PFrame d, PFrame e =>
      Ok (PFrame (mkFrame (df_datetime d) (df_coltime d) (df_index d)
                          (zip_with (λ c c', (c.1, zip_with f c.2 c'.2))
                                    (df_columns d) (df_columns e))))
  | _, _ => Raise TypeError
  end.

Definition pd_add : pdata → pdata → result pdata := pd_zip_with Qcplus.

Definition pd_midpoint : pdata → pdata → result pdata :=
  pd_zip_with (λ x y, (x + y) / 2).

(** The rows in ascending order of their values, by insertion.  With
    distinct values this is the only sorted order there is. *)
Fixpoint insert_row (r : label * Qc) (rows : list (label * Qc)) : list (label * Qc) :=
  match rows with
  | [] => r :: []
  | r' :: rows' =>
      if decide (r.2 ≤ r'.2) then r :: rows
      else r' :: insert_row r rows'
  end.

Definition sort_rows (rows : list (label * Qc)) : list (label * Qc) :=
  foldr insert_row [] rows.

(** numpy's default sort of the rows by value: the sorted order when
    the values are distinct, and numpy's own choice among the sorted orders
    otherwise. *)
Definition np_sort (rows : list (label * Qc)) : list (label * Qc) :=
  if decide (NoDup rows.*2) then sort_rows rows else sort_ties env rows.

(** [Series.sort_values(ascending=...)].  pandas sorts the values with
    numpy's default sort; for a descending sort it reverses the rows, sorts
    them ascending and reverses the outcome. *)
Definition sort_values (s : Series) (ascending : bool) : Series :=
  mkSeries (s_name s) (s_datetime s)
           (if ascending then np_sort (s_rows s)
            else reverse (np_sort (reverse (s_rows s)))).

(** Row [i] of a table as a list of cells (0 where a malformed column is
    too short). *)
Definition frame_row (d : DataFrame) (i : nat) : list (label * Qc) :=
  (λ c, (c.1, default 0 (c.2 !! i))) <$> df_columns d.

(** [data.transpose()] *)
Definition pd_transpose (data : pdata) : pdata :=
  match data with
  | PFrame d =>
      PFrame (mkFrame (df_coltime d) (df_datetime d) (df_columns d).*1
                      (imap (λ i l, (l, (frame_row d i).*2)) (df_index d)))
  | _ => data
  end.

(** [data.iloc[:, j]] *)
Definition iloc_column (data : pdata) (j : Z) : result Series :=
  match data with
  | PScalar _ => Raise AttributeError
  | PSeries _ => Raise IndexingError       (* too many indexers *)
  | PFrame d =>
      j ← py_position (ncols d) j;
      match df_columns d !! j with
      | Some c => Ok (mkSeries (Some c.1) (df_datetime d) (zip (df_index d) c.2))
      | None => Raise IndexError
      end
  end.

(** [data.iloc[i, :]] *)
Definition iloc_row (data : pdata) (i : Z) : result Series :=
  match data with
  | PScalar _ => Raise AttributeError
  | PSeries _ => Raise IndexingError
  | PFrame d =>
      i ← py_position (length (df_index d)) i;
      Ok (mkSeries (df_index d !! i) (df_coltime d) (frame_row d i))
  end.

(** [data[col]] for a column label of [data]: the column as a Series, or,
    when several columns carry that label, the table of those columns. *)
Definition getitem_column (d : DataFrame) (col : label) : pdata :=
  match filter (λ c, c.1 = col) (df_columns d) with
  | c :: [] => PSeries (mkSeries (Some c.1) (df_datetime d) (zip (df_index d) c.2))
  | cs => PFrame (mkFrame (df_datetime d) (df_coltime d) (df_index d) cs)
  end.

(** [data.squeeze()]: axes of length one are dropped.  [None] means that
    there is no such axis and the data stay as they are. *)
Definition squeeze (data : pdata) : option pdata :=
  match data with
  | PScalar _ => None
  | PSeries s =>
      match s_rows s with
      | r :: [] => Some (PScalar r.2)
      | _ => None
      end
  | PFrame d =>
      match df_index d, df_columns d with
      | _ :: [], c :: [] => Some (PScalar (default 0 (c.2 !! 0%nat)))
      | l :: [], _ => Some (PSeries (mkSeries (Some l) (df_coltime d) (frame_row d 0)))
      | _, c :: [] => Some (PSeries (mkSeries (Some c.1) (df_datetime d) (zip (df_index d) c.2)))
      | _, _ => None
      end
  end.

End Libraries.

(** ** The rendering engine *)

Definition kwargs := list (string * string).

(** What a bar position or a display value can be when a pandas object is
    iterated: a number, or a label that is not a number (iterating a
    DataFrame yields its column labels). *)
Inductive atom :=
  | ANum (q : Qc)
  | ALabel (l : label).

Definition atom_of_label (l : label) : atom :=
  match l with
  | LInt z => ANum (Qc_of_Z z)
  | _ => ALabel l
  end.

(** [iter(data)] *)
Definition py_iter (data : pdata) : result (list atom) :=
  match data with
  | PScalar _ => Raise TypeError
  | PSeries s => Ok (ANum <$> s_values s)
  | PFrame d => Ok (atom_of_label <$> (df_columns d).*1)
  end.

(** One call of [ax.text]: the label is the number [t_value] rendered with
    the format [t_fmt]. *)
Record text_call := mkText {
  t_x : Qc;
  t_y : Qc;
  t_value : Qc;
  t_fmt : string;
  t_color : string;
  t_va : string;
  t_ha : string
}.

(** The calls made to matplotlib and seaborn. *)
Inductive draw_cmd :=
  | CmdPlot (kind : option string) (stacked : bool) (left : option pdata)
            (color : list string) (content : pdata) (kw : kwargs)
  | CmdScatter (x y : Series) (size : option Series) (color : string) (kw : kwargs)
  | CmdText (t : text_call)
  | CmdBox (on : bool)
  | CmdXticks (ticks : list Qc)
  | CmdYticks (ticks : list Qc).

(** Computations that talk to the rendering engine only: they see the
    calls made so far, add calls, and may raise.  What was drawn before an
    exception stays drawn. *)
Definition Draw (A : Type) : Type := list draw_cmd → result A * list draw_cmd.

Definition dret {A} (a : A) : Draw A := λ fig, (Ok a, fig).

Definition dbind {A B} (m : Draw A) (f : A → Draw B) : Draw B := λ fig,
  match m fig with
  | (Ok a, fig') => f a fig'
  | (Raise e, fig') => (Raise e, fig')
  end.

Global Instance Draw_ret : MRet Draw := @dret.
Global Instance Draw_bind : MBind Draw := λ A B f m, dbind m f.

Definition draise {A} (e : exn) : Draw A := λ fig, (Raise e, fig).

Definition dlift {A} (r : result A) : Draw A := λ fig, (r, fig).

Definition emit (c : draw_cmd) : Draw unit := λ fig, (Ok (), fig ++ [c]).

Definition drawn : Draw (list draw_cmd) := λ fig, (Ok fig, fig).

Section Renderer.

(** The axis limits matplotlib has chosen after the calls made so far:
    [(xlim, ylim)]. *)
Variable autoscale : list draw_cmd → (Qc * Qc) * (Qc * Qc).

(** The installed pandas and numpy. *)
Variable env : Pandas.

Definition get_xlim : Draw (Qc * Qc) := fig ← drawn; dret (autoscale fig).1.
Definition get_ylim : Draw (Qc * Qc) := fig ← drawn; dret (autoscale fig).2.

(** *** plot_values_above_bar *)

(** [v += 0.025 * plotsize] needs a number. *)
Definition atom_number (a : atom) : result Qc :=
  match a with
  | ANum q => Ok q
  | ALabel _ => Raise TypeError
  end.

(** ['{:{prec}}'.format(dv, prec=strfmt)] with a numeric format: the label
    is kept as the number and its format. *)
Definition format_label (dv : atom) (strfmt : string) : result (Qc * string) :=
  match dv with
  | ANum q => Ok (q, strfmt)
  | ALabel _ => Raise ValueError
  end.

(** Where the label of the bar in slot [i] goes: the end of the bar moved by
    2.5% of the axis range, and the slot, nudged when several series share
    it. *)
Definition label_value_coord (plotsize v : Qc) : Qc := v + qc 25 1000 * plotsize.

Definition label_slot_coord (bar_nr nr_bars : option nat) (i : nat) : Qc :=
  match nr_bars, bar_nr with
  | Some n, Some b =>
      Qc_of_nat i + (- qc 1 2 + 1 / (Qc_of_nat n + 2) * (Qc_of_nat b + 1))
  | _, _ => Qc_of_nat i
  end.

(** The loop over [enumerate(zip(data, display_values))], from slot [i] on. *)
Fixpoint label_loop (plotsize : Qc) (strfmt orient textcolor va ha : string)
    (bar_nr nr_bars : option nat) (i : nat) (items : list (atom * atom)) : Draw unit :=
  match items with
  | [] => dret ()
  | (v, dv) :: items' =>
      v ← dlift (atom_number v);
      let v := label_value_coord plotsize v in
      let i' := label_slot_coord bar_nr nr_bars i in
      let x := if decide (orient = "v") then v else i' in
      let y := if decide (orient = "v") then i' else v in
      lbl ← dlift (format_label dv strfmt);
      emit (CmdText (mkText x y lbl.1 lbl.2 textcolor va ha));;
      label_loop plotsize strfmt orient textcolor va ha bar_nr nr_bars (S i) items'
  end.

(** The module draws on one axes only, so the [ax] argument (that axes, or
    [plt.gca()] when absent) is left out. *)
Definition plot_values_above_bar (data : pdata) (display_values : option pdata)
    (strfmt orient textcolor : string) (bar_nr nr_bars : option nat) : Draw unit :=
  (if bool_decide (is_Some bar_nr ↔ is_Some nr_bars) then dret ()
   else draise ValueError);;
  let display_values := default data display_values in
  '(lim_min, lim_max, va, ha) ←
    (if decide (orient = "v") then
       lim ← get_xlim; dret (lim.1, lim.2, "center", "left")
     else if decide (orient = "h") then
       lim ← get_ylim; dret (lim.1, lim.2, "bottom", "center")
     else draise ValueError);
  let plotsize := lim_max - lim_min in
  vs ← dlift (py_iter data);
  dvs ← dlift (py_iter display_values);
  label_loop plotsize strfmt orient textcolor va ha bar_nr nr_bars 0 (zip vs dvs).

(** ** The heap of pandas objects *)

Definition ref := nat.

Record world := mkWorld {
  heap : list pdata;
  figure : list draw_cmd
}.

(** Computations that also read and write pandas objects.  The world is
    kept when an exception is raised. *)
Definition M (A : Type) : Type := world → result A * world.

Definition ret {A} (a : A) : M A := λ w, (Ok a, w).

Definition bind {A B} (m : M A) (f : A → M B) : M B := λ w,
  match m w with
  | (Ok a, w') => f a w'
  | (Raise e, w') => (Raise e, w')
  end.

Global Instance M_ret : MRet M := @ret.
Global Instance M_bind : MBind M := λ A B f m, bind m f.

Definition raise {A} (e : exn) : M A := λ w, (Raise e, w).

Definition lift {A} (r : result A) : M A := λ w, (r, w).

Definition draw {A} (m : Draw A) : M A := λ w,
  let '(r, fig) := m (figure w) in (r, mkWorld (heap w) fig).

Definition alloc (d : pdata) : M ref :=
  λ w, (Ok (length (heap w)), mkWorld (heap w ++ [d]) (figure w)).

Definition deref (r : ref) : M pdata :=
  λ w, match heap w !! r with
       | Some d => (Ok d, w)
       | None => (Raise DanglingReference, w)
       end.

Definition store (r : ref) (d : pdata) : M unit :=
  λ w, (Ok (), mkWorld (<[r := d]> (heap w)) (figure w)).

(** *** plot_waterfall *)

(** [data.loc[key] = v] writes into the object [data] refers to. *)
Definition loc_set_ref (data : ref) (key : label) (v : nat → Qc) : M unit :=
  d ← deref data;
  d' ← lift (loc_set d key v);
  store data d'.

(** Returns [(data, blank)]; the colours go to the engine with the plot. *)
Definition plot_waterfall (data : ref) (color : option (list string))
    (buildup : bool) (kw : kwargs) : M (ref * pdata) :=
  d ← deref data;
  color ← match color with
          | None => n ← lift (py_len d); ret (replicate n "lightgray")
          | Some c => ret c
          end;
  blank ← lift (pd_running_offsets d);
  total ← lift (pd_sum d);
  loc_set_ref data TOTAL (totals_at total);;
  blank ← lift (loc_set blank TOTAL (λ _, 0));
  let color := color ++ ["gray"] in
  '(data, blank, color) ←
    (if buildup then
       d ← deref data;
       d ← lift (pd_reverse d);
       data ← alloc d;
       blank ← lift (pd_reverse blank);
       ret (data, blank, reverse color)
     else ret (data, blank, color));
  d ← deref data;
  draw (emit (CmdPlot (Some "barh") true (Some blank) color d kw));;
  ret (data, blank).

(** *** micompanyify *)

(** [pd.options.plotting.backend = 'matplotlib'], set when the module is
    loaded. *)
Definition plotting_backend : string := "matplotlib".

(** [data = data.squeeze()].  When nothing is squeezed, pandas before 2.0
    hands back the object it was called on, so [data] keeps referring to the
    caller's object; later versions hand back a new object, and with
    copy-on-write nothing written into it reaches the caller's. *)
Definition squeeze_ref (data : ref) : M ref :=
  d ← deref data;
  match squeeze d with
  | Some d' => alloc d'
  | None =>
      match squeeze_nothing env with
      | SameObject => ret data
      | NewObject => alloc d
      end
  end.

(** [data = data.sort_values(ascending=ascending)]: a new object.  Without
    a [by] argument only a Series can be sorted. *)
Definition sort_values_ref (data : ref) (ascending : bool) : M ref :=
  d ← deref data;
  match d with
  | PSeries s => alloc (PSeries (sort_values env s ascending))
  | _ => raise TypeError
  end.

(** [for i, col in enumerate(data.columns): plot_values_above_bar(data[col], ...)] *)
Fixpoint label_columns (d : DataFrame) (strfmt orient : string) (i : nat)
    (cols : list label) : Draw unit :=
  match cols with
  | [] => dret ()
  | col :: cols' =>
      plot_values_above_bar (getitem_column d col) None strfmt orient "black"
                            (Some i) (Some (ncols d));;
      label_columns d strfmt orient (S i) cols'
  end.

(** The labels of a bar chart: one set for a Series, one per column for a
    DataFrame. *)
Definition label_bars (d : pdata) (strfmt orient : string) : Draw unit :=
  match d with
  | PSeries _ => plot_values_above_bar d None strfmt orient "black" None None
  | PFrame f => label_columns f strfmt orient 0 (df_columns f).*1
  | PScalar _ => draise AttributeError
  end.

Definition default_strfmt (d : pdata) : string :=
  if match d with
     | PFrame f => all_columns_percentage env f
     | PSeries s => is_percentage_series env (s_values s)
     | PScalar _ => false
     end
  then ".1%" else ".2f".

Definition unsorted_kinds : list string :=
  ["scatter"; "piechart"; "composition_comparison"; "bar_timeseries"; "line_timeseries"].

(** [plot_values_above_bar((data+blank), data, ...)] after a waterfall *)
Definition label_waterfall (data : ref) (blank : pdata) (strfmt orient : string) : M unit :=
  d ← deref data;
  pos ← lift (pd_add d blank);
  draw (plot_values_above_bar pos (Some d) strfmt orient "black" None None).

(** The branches of the dispatch that only read [data] and draw. *)
Definition draw_scatter (d : pdata) (kw : kwargs) : Draw unit :=
  x ← dlift (iloc_column d 0);
  y ← dlift (iloc_column d 1);
  size ← match iloc_column d 2 with
         | Ok s => dret (Some s)
         | Raise IndexError => dret None
         | Raise e => draise e
         end;
  emit (CmdScatter x y size "grey" kw).

Definition draw_composition_comparison (d : pdata) (hl : highlight)
    (color : list string) (strfmt orient : string) (kw : kwargs) : Draw unit :=
  emit (CmdPlot (Some "barh") true None color (pd_transpose d) kw);;
  data_begin ← dlift (pd_running_offsets d);
  data_end ← dlift (pd_cumsum d);
  location ← dlift (pd_midpoint data_begin data_end);
  match hl with
  | HInt h =>
      loc_row ← dlift (iloc_row location h);
      data_row ← dlift (iloc_row d h);
      plot_values_above_bar (PSeries loc_row) (Some (PSeries data_row))
                            strfmt orient "white" None None
  | HList _ => draise TypeError
  end.

(** The dispatch on [plottype].  [d] is the object [data] refers to. *)
Definition dispatch (plottype : string) (data : ref) (d : pdata) (hl : highlight)
    (color : list string) (strfmt orient : string) (kw : kwargs) : M unit :=
  if decide (plottype = "bar") then
    draw (emit (CmdPlot (Some "barh") false None color d kw);;
          label_bars d strfmt orient)
  else if decide (plottype = "waterfall") then
    '(data, blank) ← plot_waterfall data (Some color) false kw;
    label_waterfall data blank strfmt orient
  else if decide (plottype = "waterfall_buildup") then
    '(data, blank) ← plot_waterfall data (Some color) true kw;
    if decide (plotting_backend = "matplotlib") then
      label_waterfall data blank strfmt orient
    else ret ()
  else if decide (plottype = "bar_timeseries") then
    draw (emit (CmdPlot (Some "bar") false None color d kw);;
          label_bars d strfmt orient)
  else if decide (plottype = "line_timeseries") then
    draw (emit (CmdPlot None false None color d kw))
  else if decide (plottype = "scatter") then
    draw (draw_scatter d kw)
  else if decide (plottype = "composition_comparison") then
    draw (draw_composition_comparison d hl color strfmt orient kw)
  else if decide (plottype = "piechart") then raise TypeError
  else raise NotImplementedError.

(** [plt.box(False)] and the removal of the ticks. *)
Definition finish (plottype orient : string) : Draw unit :=
  emit (CmdBox false);;
  if bool_decide (orient = "v") && bool_decide (plottype ≠ "scatter") then
    emit (CmdXticks [])
  else if bool_decide (orient = "h")
          && bool_decide (plottype ∉ ["line_timeseries"; "scatter"]) then
    emit (CmdYticks [])
  else dret ().

(** [micompanyify] from the line after [data = data.squeeze()] on. *)
Definition render (data : ref) (hl : highlight) (plottype : option string)
    (ascending : option bool) (strfmt : option string) (kw : kwargs) : M unit :=
  d ← deref data;
  plottype ← match plottype with
             | None => lift (pick_plottype env d)
             | Some p => ret p
             end;
  let orient :=
    if bool_decide (plottype ∈ ["bar_timeseries"; "line_timeseries"]) then "h" else "v" in
  let strfmt := default (default_strfmt d) strfmt in
  color ← lift (define_colors hl d plottype);
  let ascending :=
    if bool_decide (plottype ∈ unsorted_kinds) || negb (is_series d) then None
    else ascending in
  data ← match ascending with
         | Some a => sort_values_ref data a
         | None => ret data
         end;
  d ← deref data;
  dispatch plottype data d hl color strfmt orient kw;;
  draw (finish plottype orient).

(** The handle of the axes that the function returns is not modelled: the
    drawing is read from the [figure] of the world. *)
Definition micompanyify (data : ref) (hl : highlight) (plottype : option string)
    (ascending : option bool) (strfmt : option string) (kw : kwargs) : M unit :=
  d ← deref data;
  (if is_frame d || is_series d then ret () else raise TypeError);;
  data ← squeeze_ref data;
  render data hl plottype ascending strfmt kw.

End Renderer.

(** * Specification

    The notions the properties are stated with. *)

Global Instance result_eq_dec {A} `{EqDecision A} : EqDecision (result A).
Proof. solve_decision. Defined.

Global Instance Series_eq_dec : EqDecision Series.
Proof. solve_decision. Defined.

Global Instance DataFrame_eq_dec : EqDecision DataFrame.
Proof. solve_decision. Defined.

Global Instance pdata_eq_dec : EqDecision pdata.
Proof. solve_decision. Defined.

Global Instance text_call_eq_dec : EqDecision text_call.
Proof. solve_decision. Defined.

Global Instance draw_cmd_eq_dec : EqDecision draw_cmd.
Proof. solve_decision. Defined.

(** ** Colour assignment *)

Definition len_of (data : pdata) : nat :=
  match data with
  | PScalar _ => 0
  | PSeries s => length (s_rows s)
  | PFrame d => length (df_index d)
  end.

(** The number of plotted items: categories of a Series, columns of a
    table, rows of a table drawn as a scatter plot. *)
Definition plotted_items (data : pdata) (plottype : string) : nat :=
  match data with
  | PFrame d => if decide (plottype = "scatter") then length (df_index d) else ncols d
  | _ => len_of data
  end.

(** A negative entry of a highlight list after [h = len(data) + h]. *)
Definition normalised (len_data : nat) (h : Z) : Z :=
  if decide (h < 0)%Z then (Z.of_nat len_data + h)%Z else h.

(** The positions [define_colors] writes to, in a colour list of length
    [n]: what its own normalisation and Python's indexing make of the
    highlight. *)
Definition marked_positions (hl : highlight) (data : pdata) (n : nat)
    : list (result nat) :=
  match hl with
  | HInt h => [py_position n h]
  | HList hs => (λ h, py_position n (normalised (len_of data) h)) <$> hs
  end.

(** [n] colours: the highlight colour at the positions [named], the
    neutral colour elsewhere. *)
Definition two_tone (named : list (result nat)) (n : nat) : list string :=
  (λ i, if bool_decide (Ok i ∈ named) then HIGHLIGHT_COLOR else "lightgray") <$> seq 0 n.

(** *** The colours as the specification words them *)

(** The position that the index [h] names among [n] plotted items: [h]
    itself, or [n + h] for a negative [h]; an index that does not resolve
    within the length after this normalisation names no position. *)
Definition named_position (n : nat) (h : Z) : option nat :=
  let p := if decide (h < 0)%Z then (Z.of_nat n + h)%Z else h in
  if decide (0 ≤ p < Z.of_nat n)%Z then Some (Z.to_nat p) else None.

(** In Python the index that names no position raises IndexError. *)
Definition position_result (o : option nat) : result nat :=
  match o with
  | Some p => Ok p
  | None => Raise IndexError
  end.

(** A highlight is a single index or several. *)
Definition highlight_indices (hl : highlight) : list Z :=
  match hl with
  | HInt h => [h]
  | HList hs => hs
  end.

(** One colour per plotted item, the highlight colour at the named
    positions and the neutral colour elsewhere; [None] is the usage error of
    an index that names no position. *)
Definition specified_colors (hl : highlight) (n : nat) : option (list string) :=
  let named := named_position n <$> highlight_indices hl in
  if decide (None ∈ named) then None
  else Some ((λ i, if decide (Some i ∈ named) then HIGHLIGHT_COLOR else "lightgray")
               <$> seq 0 n).

(** Where the code's reading of a highlight is the specification's: a
    single index always; a list when the colour list is as long as the
    data and no entry is below [-n]. *)
Definition read_as_specified (hl : highlight) (data : pdata) (n : nat) : Prop :=
  match hl with
  | HInt _ => True
  | HList hs => len_of data = n ∧ Forall (λ h, (- Z.of_nat n ≤ h)%Z) hs
  end.

Definition only_last_highlighted (color : list string) : Prop :=
  ∃ n, color = replicate n "lightgray" ++ [HIGHLIGHT_COLOR].

Definition highlights_last (data : pdata) (plottype : string) : Prop :=
  ∃ color, define_colors (HInt (-1)) data plottype = Ok color ∧ only_last_highlighted color.

(** ** Chart-type selection, as the specification words it *)

(** A single series or a table. *)
Inductive table :=
  | SingleSeries (s : Series)
  | Table (d : DataFrame).

Definition pdata_of (t : table) : pdata :=
  match t with
  | SingleSeries s => PSeries s
  | Table d => PFrame d
  end.

Definition Qc_max (a b : Qc) : Qc := if decide (a ≤ b) then b else a.

Definition tolerance : Qc := qc 1 1000000000.

(** [x] is 1 within the tolerance, which is relative to the larger of the
    two numbers compared. *)
Definition within_tolerance (x : Qc) : Prop :=
  Qcabs (x - 1) ≤ tolerance * Qc_max (Qcabs x) 1.

(** The percentage test on a column of values: every value lies in [0,1]
    and the values sum to 1 within the tolerance.  [total] says what the sum
    of the values is: their exact sum [Qc_sum], or the floating-point sum
    [series_sum env] of the installed pandas. *)
Definition percentage_test (total : list Qc → Qc) (vals : list Qc) : Prop :=
  Forall (λ v, 0 ≤ v ∧ v ≤ 1) vals ∧ within_tolerance (total vals).

Global Instance percentage_test_dec total vals : Decision (percentage_test total vals).
Proof. unfold percentage_test, within_tolerance. apply _. Defined.

Definition time_axis (t : table) : bool :=
  match t with
  | SingleSeries s => s_datetime s
  | Table d => df_datetime d
  end.

Definition points (t : table) : nat :=
  match t with
  | SingleSeries s => length (s_rows s)
  | Table d => length (df_index d)
  end.

(** The ordered rules. *)
Definition select_kind (total : list Qc → Qc) (t : table) : string :=
  if time_axis t then
    if decide (points t < 10)%nat then "bar_timeseries" else "line_timeseries"
  else
    match t with
    | SingleSeries s =>
        if decide (percentage_test total (s_values s)) then "waterfall" else "bar"
    | Table d =>
        if decide (Forall (λ c, percentage_test total c.2) (df_columns d))
        then "composition_comparison" else "scatter"
    end.

(** ** Label overlay *)

(** The label the specification describes for the bar in slot [i] that ends
    at [v] and shows [dv], on an axis whose value range is [lim]; [nudge]
    is [(bar_nr, nr_bars)] when both are given. *)
Definition spec_label (lim : Qc * Qc) (orient strfmt textcolor : string)
    (nudge : option (nat * nat)) (i : nat) (v dv : Qc) : draw_cmd :=
  let value_coord := v + qc 25 1000 * (lim.2 - lim.1) in
  let slot_coord :=
    match nudge with
    | Some (bar_nr, nr_bars) =>
        Qc_of_nat i - qc 1 2 + (Qc_of_nat bar_nr + 1) / (Qc_of_nat nr_bars + 2)
    | None => Qc_of_nat i
    end in
  if decide (orient = "v")
  then CmdText (mkText value_coord slot_coord dv strfmt textcolor "center" "left")
  else CmdText (mkText slot_coord value_coord dv strfmt textcolor "bottom" "center").

(** ** Waterfall *)

(** What [plot_waterfall] hands to the caller and to the engine: the table
    [data], the offsets [blank], and the colours of the plot it draws. *)
Definition waterfall_outcome (out : result (ref * pdata) * world)
    : result (pdata * pdata * list string) :=
  match out.1 with
  | Ok (data, blank) =>
      match heap out.2 !! data, last (figure out.2) with
      | Some d, Some (CmdPlot _ _ _ color _ _) => Ok (d, blank, color)
      | _, _ => Raise DanglingReference
      end
  | Raise e => Raise e
  end.

(** [l'] is [l] element by element in reverse order. *)
Definition mirrored {A} (l l' : list A) : Prop :=
  length l' = length l ∧
  ∀ i x, l !! i = Some x → l' !! (length l - 1 - i)%nat = Some x.

(** The table and the offsets [plot_waterfall] computes from a Series. *)
Definition waterfall_table (s : Series) : Series :=
  mkSeries (s_name s) (enlarged_datetime (s_datetime s) (s_labels s) TOTAL)
           (loc_set_rows (s_rows s) TOTAL (Qc_sum (s_values s))).

Definition waterfall_offsets (s : Series) : Series :=
  mkSeries (s_name s) (enlarged_datetime (s_datetime s) (s_labels s) TOTAL)
           (loc_set_rows (zip (s_labels s) (running_offsets (s_values s))) TOTAL 0).

Definition reversed_series (s : Series) : Series :=
  mkSeries (s_name s) (s_datetime s) (reverse (s_rows s)).

(** ** What a call leaves behind *)




Definition chosen_kind (env : Pandas) (d : pdata) (plottype : option string)
    : result string :=
  match plottype with
  | Some p => Ok p
  | None => pick_plottype env d
  end.

(** When nothing is squeezed: the object [data = data.squeeze()] adds to
    the heap [h], and the object [data] then refers to. *)
Definition squeeze_copy (env : Pandas) (d : pdata) : list pdata :=
  match squeeze_nothing env with
  | SameObject => []
  | NewObject => [d]
  end.

Definition squeeze_target (env : Pandas) (data : ref) (h : list pdata) : ref :=
  match squeeze_nothing env with
  | SameObject => data
  | NewObject => length h
  end.

(** The value of [data] after [data = data.squeeze()]. *)
Definition squeezed (d : pdata) : pdata := default d (squeeze d).

(** What a caller can see of a run: the result and the drawing. *)
Definition observe {A} (out : result A * world) : result A * list draw_cmd :=
  (out.1, figure out.2).

(** Two references, each in its own world, to equal objects. *)
Definition same_object (r1 : ref) (w1 : world) (r2 : ref) (w2 : world) : Prop :=
  figure w1 = figure w2 ∧ ∃ d, heap w1 !! r1 = Some d ∧ heap w2 !! r2 = Some d.

(** The single column of a table, as the Series [data.iloc[:, 0]]. *)
Definition only_column (d : DataFrame) : option Series :=
  match df_columns d with
  | c :: [] => Some (mkSeries (Some c.1) (df_datetime d) (zip (df_index d) c.2))
  | _ => None
  end.

(** ** Sorting *)

Definition row_le (r r' : label * Qc) : Prop := r.2 ≤ r'.2.

(** The first plot of a drawing: what is plotted and in which colours. *)
Definition plot_of (c : draw_cmd) : option (pdata * list string) :=
  match c with
  | CmdPlot _ _ _ color content _ => Some (content, color)
  | _ => None
  end.

Definition first_plot (fig : list draw_cmd) : option (pdata * list string) :=
  head (omap plot_of fig).

Definition sortable_kinds : list string := ["bar"; "waterfall"; "waterfall_buildup"].

(** What a sortable kind plots for the (sorted) Series [s], and the colours
    it plots them in when the assigned colours are [color]. *)
Definition plotted_content (plottype : string) (s : Series) : pdata :=
  if decide (plottype = "bar") then PSeries s
  else if decide (plottype = "waterfall") then PSeries (waterfall_table s)
  else PSeries (reversed_series (waterfall_table s)).

Definition plotted_colors (plottype : string) (color : list string) : list string :=
  if decide (plottype = "bar") then color
  else if decide (plottype = "waterfall") then color ++ ["gray"]
  else reverse (color ++ ["gray"]).

(** The colour a row carries follows the row through the reordering. *)
Definition colors_follow_rows (before : list (label * Qc)) (colors_before : list string)
    (after : list (label * Qc)) (colors_after : list string) : Prop :=
  ∀ i j r, before !! i = Some r → after !! j = Some r →
           colors_after !! j = colors_before !! i.

(** A drawing starts from an empty figure with the input as only object. *)
Definition fresh_world (d : pdata) : world := mkWorld [d] [].

(** Axis limits for the examples: both axes range over [0, 100]. *)
Definition limits_0_100 (fig : list draw_cmd) : (Qc * Qc) * (Qc * Qc) :=
  ((0, qc 100 1), (0, qc 100 1)).

(** The Series that is drawn: sorted as asked, or as it is. *)
Definition sorted_as (env : Pandas) (ascending : option bool) (s : Series) : Series :=
  match ascending with
  | Some a => sort_values env s a
  | None => s
  end.

(** The Series [s] in the order asked for: by increasing value, by
    decreasing value, or as it is. *)
Definition in_order (ascending : option bool) (s : Series) : Series :=
  match ascending with
  | Some true => mkSeries (s_name s) (s_datetime s) (sort_rows (s_rows s))
  | Some false => mkSeries (s_name s) (s_datetime s) (reverse (sort_rows (s_rows s)))
  | None => s
  end.

(** The first plot [micompanyify] draws for the Series [s] alone in a
    fresh world. *)
Definition series_plot (autoscale : list draw_cmd → (Qc * Qc) * (Qc * Qc)) (env : Pandas)
    (s : Series) (hl : highlight) (plottype : string) (ascending : option bool)
    (strfmt : option string) (kw : kwargs) : option (pdata * list string) :=
  first_plot (figure (micompanyify autoscale env 0%nat hl (Some plottype) ascending strfmt kw
                                   (fresh_world (PSeries s))).2).

(** Sorting carries the colours along with the categories: in the plot,
    every row has the colour it was assigned before the sort. *)
Definition highlight_follows_category (autoscale : list draw_cmd → (Qc * Qc) * (Qc * Qc))
    (env : Pandas) (s : Series) (hl : highlight) (plottype : string) (ascending : bool)
    : Prop :=
  ∀ color content colors,
    define_colors hl (PSeries s) plottype = Ok color →
    series_plot autoscale env s hl plottype (Some ascending) None []
    = Some (PSeries content, colors) →
    colors_follow_rows (s_rows s) color (s_rows content) colors.

(** A drawing computation only adds to the figure. *)
Definition dgrows {A} (m : Draw A) : Prop := ∀ fig, fig `prefix_of` (m fig).2.

(** ** Environments for the examples *)

(** Rounding to binary64, to nearest with ties to even, subnormal numbers
    included (values beyond the largest binary64 number are not turned into
    infinity). *)

(** The exponent [e] with [2^e ≤ n/d < 2^(e+1)], for positive [n] and [d]. *)
Definition binade (n d : Z) : Z :=
  let e := (Z.log2 n - Z.log2 d)%Z in
  if decide (n * 2 ^ Z.max 0 (- e) < d * 2 ^ Z.max 0 e)%Z then (e - 1)%Z else e.

(** [n/d * 2^k] as a fraction. *)
Definition scale2 (n d k : Z) : Z * Z :=
  if decide (0 ≤ k)%Z then ((n * 2 ^ k)%Z, d) else (n, (d * 2 ^ (- k))%Z).

(** [n/d] rounded to the nearest integer, ties to even. *)
Definition div_half_even (n d : Z) : Z :=
  let f := (n / d)%Z in
  let r2 := (2 * (n mod d))%Z in
  if decide (r2 < d)%Z then f
  else if decide (d < r2)%Z then (f + 1)%Z
  else if Z.even f then f else (f + 1)%Z.

Definition round64 (q : Qc) : Qc :=
  let n := Z.abs (Qnum q) in
  let d := Zpos (Qden q) in
  if decide (n = 0%Z) then 0
  else
    let e := Z.max (binade n d) (-1022) in
    let s := scale2 n d (52 - e) in
    let m := div_half_even s.1 s.2 in
    let r := scale2 m 1 (e - 52) in
    Q2Qc (Qmake (Z.sgn (Qnum q) * r.1) (Z.to_pos r.2)).

(** A floating-point sum: the values added in order, every partial sum
    rounded to binary64.  For two values it is their rounded sum, in
    whatever order numpy adds. *)
Definition binary64_sum (vals : list Qc) : Qc :=
  foldl (λ acc v, round64 (acc + v)) 0 vals.


Definition pandas_3 : Pandas := mkPandas binary64_sum sort_rows NewObject.

(** The floating-point numbers 0.5 and 0.500000001. *)
Definition series_half_half : Series :=
  mkSeries None false
    [(LStr "a", round64 (qc 1 2)); (LStr "b", round64 (qc 500000001 1000000000))].

(** ** Data for the examples *)

Definition series_3_1_2 : Series :=
  mkSeries None false [(LStr "a", qc 3 1); (LStr "b", qc 1 1); (LStr "c", qc 2 1)].

Definition table_2x3 : DataFrame :=
  mkFrame false false [LInt 0; LInt 1]
          [(LStr "x", [qc 1 1; qc 2 1]); (LStr "y", [qc 3 1; qc 4 1]);
           (LStr "z", [qc 5 1; qc 6 1])].

Definition table_3x2 : DataFrame :=
  mkFrame false false [LInt 0; LInt 1; LInt 2]
          [(LStr "x", [qc 1 1; qc 2 1; qc 3 1]); (LStr "y", [qc 4 1; qc 5 1; qc 6 1])].

Definition series_40 : Series := mkSeries None false [(LStr "a", qc 40 1)].

Definition series_10_m3_5 : Series :=
  mkSeries None false [(LInt 0, qc 10 1); (LInt 1, qc (-3) 1); (LInt 2, qc 5 1)].

Definition series_with_total : Series :=
  mkSeries None false [(LStr "a", qc 1 1); (LStr "total", qc 2 1)].

Definition series_quarters : Series :=
  mkSeries None false [(LStr "a", qc 1 4); (LStr "b", qc 3 4)].

Definition table_one_column : DataFrame :=
  mkFrame false false [LStr "a"; LStr "b"; LStr "c"]
          [(LStr "x", [qc 3 1; qc 1 1; qc 2 1])].

Definition column_x : Series :=
  mkSeries (Some (LStr "x")) false
           [(LStr "a", qc 3 1); (LStr "b", qc 1 1); (LStr "c", qc 2 1)].


(** ** Further notions *)

Definition is_text (c : draw_cmd) : Prop :=
  match c with
  | CmdText _ => True
  | _ => False
  end.

(** A drawing computation adds commands that satisfy [P], and nothing else
    happens to the figure. *)
Definition dadds {A} (P : draw_cmd → Prop) (m : Draw A) : Prop :=
  ∀ fig, ∃ added, (m fig).2 = fig ++ added ∧ Forall P added.

(** The kinds [micompanyify] has a branch for. *)
Definition supported_kinds : list string :=
  ["bar"; "waterfall"; "waterfall_buildup"; "bar_timeseries"; "line_timeseries";
   "scatter"; "composition_comparison"].

(** Every object of [h0] other than the one at [r] is still in [w]. *)
Definition unchanged_except (r : ref) (h0 : list pdata) (w : world) : Prop :=
  (length h0 ≤ length (heap w))%nat ∧
  ∀ r' d, r' ≠ r → h0 !! r' = Some d → heap w !! r' = Some d.

(** The world [w'] a call leaves behind when started in [w]: the figure is
    only drawn on, and no object of [w] other than the one at [r] is
    written. *)
Definition keeps (r : ref) (w w' : world) : Prop :=
  figure w `prefix_of` figure w' ∧ unchanged_except r (heap w) w'.

Definition confined {A} (r : ref) (m : M A) : Prop := ∀ w, keeps r w (m w).2.

(** The last row of [rows] holds a largest value of [all]. *)
Definition largest_last (all rows : list (label * Qc)) : Prop :=
  ∃ top, last rows = Some top ∧ top ∈ all ∧ ∀ r, r ∈ all → r.2 ≤ top.2.

(** The column [c] of the table [d] as a Series, as [data.iloc[:, j]]
    returns it. *)
Definition column_series (d : DataFrame) (c : label * list Qc) : Series :=
  mkSeries (Some c.1) (df_datetime d) (zip (df_index d) c.2).

(** The labels [plot_values_above_bar] draws for the values of [s] itself. *)
Definition value_labels (lim : Qc * Qc) (orient strfmt : string) (s : Series)
    : list draw_cmd :=
  imap (λ i v, spec_label lim orient strfmt "black" None i v v) (s_values s).

Definition series_time : Series :=
  mkSeries None true [(LTime 2, qc 3 1); (LTime 1, qc 1 1); (LTime 3, qc 2 1)].

(** The middle of the segment of row [i] in the stacked bar of a column:
    the values above it in the column, plus half its own value. *)
Definition segment_middle (col : list Qc) (i : nat) : Qc :=
  Qc_sum (take i col) + default 0 (col !! i) / 2.

(** The labels of a composition comparison: for the highlighted row [i],
    one white label per column. *)
Definition composition_labels (lim : Qc * Qc) (strfmt : string) (d : DataFrame) (i : nat)
    : list draw_cmd :=
  imap (λ j c, spec_label lim "v" strfmt "white" None j
                          (segment_middle c.2 i) (default 0 (c.2 !! i)))
       (df_columns d).

(** The labels of a waterfall: bar [i] is labelled with its value at the
    running total up to and including it, where the bar ends; the 'total'
    bar is labelled with the total at the total. *)
Definition waterfall_labels (lim : Qc * Qc) (strfmt : string) (s : Series) : list draw_cmd :=
  imap (λ i it, spec_label lim "v" strfmt "black" None i it.1 it.2)
       (zip (cumsum (s_values s) ++ [Qc_sum (s_values s)])
            (s_values s ++ [Qc_sum (s_values s)])).

(** * Properties *)

Ltac unfold_M :=
  unfold mbind, M_bind, bind, mret, M_ret, ret, raise, lift, draw, alloc, deref, store,
         emit in *.

Ltac solve_elem :=
  by repeat first [ apply list_elem_of_here | apply list_elem_of_further ].

(** ** Colour assignment *)

Lemma py_position_lt n i p : py_position n i = Ok p → (p < n)%nat.
Proof. unfold py_position. repeat case_decide; intros [= <-]; lia. Qed.

Lemma py_position_raise n i e : py_position n i = Raise e → e = IndexError.
Proof. unfold py_position. repeat case_decide; congruence. Qed.

Lemma list_setitem_ok {A} (l l' : list A) i x :
  list_setitem l i x = Ok l' →
  ∃ p, py_position (length l) i = Ok p ∧ l' = <[p := x]> l.
Proof.
  unfold list_setitem. destruct (py_position (length l) i) as [p|e] eqn:E; simpl; [|done].
  intros [= <-]. eauto.
Qed.

Lemma list_setitem_raise {A} (l : list A) i x e :
  list_setitem l i x = Raise e → py_position (length l) i = Raise e.
Proof.
  unfold list_setitem. destruct (py_position (length l) i) as [p|e'] eqn:E; simpl; [done|].
  by intros [= <-].
Qed.

Lemma highlight_loop_ok len hs : ∀ color color',
  highlight_loop (Z.of_nat len) hs color = Ok color' →
  length color' = length color ∧
  ∀ i, color' !! i =
       if bool_decide (Ok i ∈ (λ h, py_position (length color) (normalised len h)) <$> hs)
       then Some HIGHLIGHT_COLOR else color !! i.
Proof.
  induction hs as [|h hs IH]; intros color color'; simpl.
  - intros [= <-]. split; [done|]. intros i. done.
  - fold (normalised len h).
    destruct (list_setitem color (normalised len h) HIGHLIGHT_COLOR) as [c1|e] eqn:E;
      simpl; [|done].
    intros Hl.
    apply list_setitem_ok in E as (p & Hp & ->).
    apply IH in Hl as [Hlen Hl]. rewrite length_insert in Hlen, Hl.
    split; [done|]. intros i. rewrite Hl, Hp.
    pose proof (py_position_lt _ _ _ Hp) as Hlt.
    destruct (decide (i = p)) as [->|Hne].
    + rewrite list_lookup_insert_eq by done.
      match goal with |- _ = (if bool_decide ?P then _ else _) =>
        rewrite (bool_decide_eq_true_2 P) by apply list_elem_of_here end.
      by case_bool_decide.
    + rewrite list_lookup_insert_ne by done.
      case_bool_decide as H1; case_bool_decide as H2; try done.
      * exfalso. apply H2. by apply list_elem_of_further.
      * apply elem_of_cons in H2 as [[=]|]; done.
Qed.

Lemma highlight_loop_raise len hs : ∀ color e,
  highlight_loop (Z.of_nat len) hs color = Raise e →
  Raise e ∈ (λ h, py_position (length color) (normalised len h)) <$> hs.
Proof.
  induction hs as [|h hs IH]; intros color e; simpl; [done|].
  fold (normalised len h).
  destruct (list_setitem color (normalised len h) HIGHLIGHT_COLOR) as [c1|e'] eqn:E; simpl.
  - intros Hl. apply list_setitem_ok in E as (p & Hp & ->).
    apply IH in Hl. rewrite length_insert in Hl. by apply list_elem_of_further.
  - intros [= <-]. apply list_setitem_raise in E. rewrite E. apply list_elem_of_here.
Qed.

Lemma highlight_loop_all_ok len hs : ∀ color color',
  highlight_loop (Z.of_nat len) hs color = Ok color' →
  ∀ h, h ∈ hs → ∃ p, py_position (length color) (normalised len h) = Ok p.
Proof.
  induction hs as [|h0 hs IH]; intros color color' Hl h Hin; [by apply elem_of_nil in Hin|].
  simpl in Hl. fold (normalised len h0) in Hl.
  destruct (list_setitem color (normalised len h0) HIGHLIGHT_COLOR) as [c1|e] eqn:E;
    simpl in Hl; [|done].
  apply list_setitem_ok in E as (p & Hp & ->).
  apply elem_of_cons in Hin as [->|Hin]; [eauto|].
  specialize (IH _ _ Hl h Hin). by rewrite length_insert in IH.
Qed.

Lemma two_tone_lookup named n i :
  two_tone named n !! i =
  if decide (i < n)%nat
  then Some (if bool_decide (Ok i ∈ named) then HIGHLIGHT_COLOR else "lightgray")
  else None.
Proof.
  unfold two_tone. rewrite list_lookup_fmap.
  case_decide.
  - by rewrite lookup_seq_lt.
  - by rewrite lookup_seq_ge by lia.
Qed.

(** The colour list before any highlight is applied. *)
Lemma initial_colors_ok data plottype color :
  (if is_series data || bool_decide (plottype = "scatter") then
     n ← py_len data; Ok (replicate n "lightgray")
   else match data with
        | PFrame d => Ok (replicate (ncols d) "lightgray")
        | _ => Raise TypeError
        end) = Ok color →
  color = replicate (plotted_items data plottype) "lightgray" ∧ py_len data = Ok (len_of data).
Proof.
  destruct data as [q|s|d]; simpl; unfold plotted_items; simpl.
  - case_bool_decide; done.
  - by intros [= <-].
  - case_bool_decide; case_decide; try done; by intros [= <-].
Qed.

Lemma initial_colors_eq data plottype :
  is_series data || is_frame data = true →
  (if is_series data || bool_decide (plottype = "scatter") then
     n ← py_len data; Ok (replicate n "lightgray")
   else match data with
        | PFrame d => Ok (replicate (ncols d) "lightgray")
        | _ => Raise TypeError
        end) = Ok (replicate (plotted_items data plottype) "lightgray").
Proof.
  destruct data as [q|s|d]; simpl; unfold plotted_items; simpl; [done..|].
  intros _. case_bool_decide; case_decide; done.
Qed.

(** What [define_colors] does: it returns one colour per plotted item
    (categories of a Series, columns of a table, rows of a table for kind
    scatter), the highlight colour exactly at the positions it writes to and
    the neutral colour elsewhere.  It raises only for data that is neither a
    Series nor a table, or, with IndexError, when a position it was to write
    to is out of range. *)
Lemma define_colors_marks hl data plottype :
  let n := plotted_items data plottype in
  match define_colors hl data plottype with
  | Ok color =>
      length color = n ∧ color = two_tone (marked_positions hl data n) n
  | Raise e =>
      (is_series data || is_frame data = false ∧ e = TypeError)
      ∨ (e = IndexError ∧ Raise IndexError ∈ marked_positions hl data n)
  end.
Proof.
  intros n. unfold define_colors.
  match goal with |- context [mbind _ ?c] => destruct c as [color|e] eqn:Ec end; simpl.
  2:{ left. destruct data as [q|s|d]; simpl in *; [|done|].
      - split; [done|]. destruct (bool_decide _); by simplify_eq.
      - destruct (bool_decide _); by simplify_eq. }
  apply initial_colors_ok in Ec as [-> Hlen]. fold n.
  destruct hl as [h|hs]; simpl.
  - destruct (list_setitem _ h HIGHLIGHT_COLOR) as [c|e] eqn:E.
    + apply list_setitem_ok in E as (p & Hp & ->). rewrite length_replicate in Hp.
      rewrite length_insert, length_replicate. split; [done|].
      apply list_eq. intros i. rewrite two_tone_lookup, Hp.
      pose proof (py_position_lt _ _ _ Hp).
      destruct (decide (i = p)) as [->|].
      * rewrite list_lookup_insert_eq by (by rewrite length_replicate).
        rewrite decide_True by done. case_bool_decide as Hin; [done|].
        exfalso. apply Hin. apply list_elem_of_here.
      * rewrite list_lookup_insert_ne by done. case_decide.
        -- rewrite lookup_replicate_2 by done. case_bool_decide as Hin; [|done].
           apply list_elem_of_singleton in Hin. congruence.
        -- apply lookup_replicate_None. lia.
    + right. apply list_setitem_raise in E. rewrite length_replicate in E.
      pose proof (py_position_raise _ _ _ E) as ->. split; [done|].
      rewrite E. apply list_elem_of_here.
  - rewrite Hlen. simpl.
    destruct (highlight_loop _ hs _) as [c|e] eqn:E.
    + apply highlight_loop_ok in E as [Hl E]. rewrite !length_replicate in *.
      split; [done|]. apply list_eq. intros i. rewrite E, two_tone_lookup.
      case_decide.
      * rewrite lookup_replicate_2 by done. by case_bool_decide.
      * case_bool_decide as Hin; [|apply lookup_replicate_None; lia].
        apply list_elem_of_fmap in Hin as (h & Hp & _). symmetry in Hp.
        apply py_position_lt in Hp. lia.
    + right. apply highlight_loop_raise in E. rewrite length_replicate in E.
      assert (e = IndexError) as ->.
      { apply list_elem_of_fmap in E as (h & Hp & _). symmetry in Hp.
        by apply py_position_raise in Hp. }
      done.
Qed.

(** The length half of the colour claim holds for every input. *)
Lemma define_colors_length hl data plottype color :
  define_colors hl data plottype = Ok color →
  length color = plotted_items data plottype.
Proof.
  intros H. pose proof (define_colors_marks hl data plottype) as Hm.
  rewrite H in Hm. apply Hm.
Qed.

(** When [define_colors] returns, every position it was to write to was in
    range. *)
Lemma define_colors_all_marked hl data plottype color :
  define_colors hl data plottype = Ok color →
  ∀ r, r ∈ marked_positions hl data (plotted_items data plottype) → ∃ p, r = Ok p.
Proof.
  unfold define_colors.
  match goal with |- context [mbind _ ?c] => destruct c as [c0|e] eqn:Ec end; simpl; [|done].
  apply initial_colors_ok in Ec as [-> Hlen].
  destruct hl as [h|hs]; simpl.
  - intros (p & Hp & _)%list_setitem_ok r ->%list_elem_of_singleton.
    rewrite length_replicate in Hp. eauto.
  - rewrite Hlen. simpl. intros Hl r (h & -> & Hin)%list_elem_of_fmap.
    destruct (highlight_loop_all_ok _ _ _ _ Hl h Hin) as [p Hp].
    rewrite length_replicate in Hp. eauto.
Qed.

Lemma py_position_named n h : py_position n h = position_result (named_position n h).
Proof.
  unfold py_position, named_position. repeat case_decide; simpl; try done; try lia.
Qed.

Lemma py_position_normalised_named n h :
  (- Z.of_nat n ≤ h)%Z →
  py_position n (normalised n h) = position_result (named_position n h).
Proof.
  intros Hh. unfold py_position, named_position, normalised.
  repeat case_decide; simpl; try done; try lia.
Qed.

Lemma marked_as_named hl data n :
  read_as_specified hl data n →
  marked_positions hl data n = position_result <$> (named_position n <$> highlight_indices hl).
Proof.
  destruct hl as [h|hs]; simpl.
  - intros _. by rewrite py_position_named.
  - intros [-> Hall]. rewrite <-list_fmap_compose. apply Forall_fmap_ext_1.
    eapply Forall_impl; [exact Hall|]. intros h Hh. simpl.
    by apply py_position_normalised_named.
Qed.

(** Where the code reads the highlight as the specification does, it
    returns the specified colours, or raises IndexError for the usage
    error. *)
Lemma define_colors_as_specified hl data plottype :
  is_series data || is_frame data = true →
  read_as_specified hl data (plotted_items data plottype) →
  define_colors hl data plottype
  = match specified_colors hl (plotted_items data plottype) with
    | Some color => Ok color
    | None => Raise IndexError
    end.
Proof.
  intros Hty Hread.
  pose proof (define_colors_marks hl data plottype) as Hm.
  pose proof (define_colors_all_marked hl data plottype) as Hall.
  simpl in Hm. rewrite (marked_as_named _ _ _ Hread) in Hm, Hall.
  unfold specified_colors.
  set (named := named_position _ <$> highlight_indices hl) in *.
  destruct (define_colors hl data plottype) as [color|e].
  - destruct Hm as [_ ->]. specialize (Hall _ eq_refl).
    rewrite decide_False.
    2:{ intros Hin. destruct (Hall (Raise IndexError)) as [p Hp]; [|done].
        apply list_elem_of_fmap. by exists None. }
    f_equal. unfold two_tone. apply list_fmap_ext. intros _ i _.
    case_bool_decide as H1; case_decide as H2; try done.
    + exfalso. apply H2. apply list_elem_of_fmap in H1 as ([p|] & Hp & Hin); [|done].
      by injection Hp as ->.
    + exfalso. apply H1. apply list_elem_of_fmap. by exists (Some i).
  - destruct Hm as [[Hf _]|[-> Hin]]; [congruence|].
    rewrite decide_True; [done|].
    apply list_elem_of_fmap in Hin as ([p|] & Hp & Hin); done.
Qed.

(** C5.  The colours are not those of the highlight as it is specified.
    On the table with 2 rows and 3 columns the list [[-1]] names the last of
    the three plotted columns, and the code marks the middle one.  On the
    Series with 3 categories the list [[-4]] names no position, a usage
    error, and the code marks the last category. *)
Theorem define_colors_marks_other_positions :
  specified_colors (HList [-1]%Z) (plotted_items (PFrame table_2x3) "bar")
    = Some ["lightgray"; "lightgray"; "purple"]
  ∧ define_colors (HList [-1]%Z) (PFrame table_2x3) "bar"
    = Ok ["lightgray"; "purple"; "lightgray"]
  ∧ specified_colors (HList [-4]%Z) (plotted_items (PSeries series_3_1_2) "bar") = None
  ∧ define_colors (HList [-4]%Z) (PSeries series_3_1_2) "bar"
    = Ok ["lightgray"; "lightgray"; "purple"].
Proof. repeat split; reflexivity. Qed.

Lemma insert_last_replicate {A} (n : nat) (x y : A) :
  (0 < n)%nat → <[(n - 1)%nat := y]> (replicate n x) = replicate (n - 1) x ++ [y].
Proof.
  intros Hn. destruct n as [|n]; [lia|]. replace (S n - 1)%nat with n by lia.
  rewrite replicate_S_end.
  rewrite insert_app_r_alt by (rewrite length_replicate; lia).
  rewrite length_replicate, Nat.sub_diag. done.
Qed.

(** C8, amended.  For data with at least one plotted item, the highlight
    [-1] marks exactly the last position: all colours are neutral except
    the last one, whatever the length and the kind.  For a Series or a table
    with no plotted item it raises IndexError. *)
Theorem define_colors_last data plottype :
  let n := plotted_items data plottype in
  define_colors (HInt (-1)) data plottype
  = if decide (0 < n)%nat then Ok (replicate (n - 1) "lightgray" ++ [HIGHLIGHT_COLOR])
    else if is_series data || is_frame data then Raise IndexError
    else Raise TypeError.
Proof.
  intros n. subst n. case_decide as Hn.
  - unfold define_colors. rewrite initial_colors_eq.
    2:{ destruct data; [simpl in Hn; lia|done..]. }
    simpl. unfold list_setitem, py_position. rewrite length_replicate.
    rewrite decide_False by lia. rewrite decide_True by lia. simpl.
    replace (Z.to_nat (Z.of_nat (plotted_items data plottype) + -1))
      with (plotted_items data plottype - 1)%nat by lia.
    by rewrite insert_last_replicate.
  - destruct (is_series data || is_frame data) eqn:Hty.
    + unfold define_colors. rewrite initial_colors_eq by done.
      simpl. unfold list_setitem, py_position. rewrite length_replicate.
      rewrite !decide_False by lia. done.
    + destruct data as [q|s|d]; [|done..]. unfold define_colors. simpl.
      by case_bool_decide.
Qed.

(** C8 as stated fails for data of length 0: there is no last position and
    [color[-1] = ...] raises IndexError on the empty colour list. *)
Lemma define_colors_last_empty :
  define_colors (HInt (-1)) (PSeries (mkSeries None false [])) "bar" = Raise IndexError
  ∧ ¬ highlights_last (PSeries (mkSeries None false [])) "bar".
Proof. split; [done|]. intros (color & H & _). discriminate H. Qed.

(** On a Series (and wherever the colour list is as long as the data) a
    negative index that names a position gives the same colours alone and
    as a one-element list. *)
Lemma define_colors_int_list_same h data plottype :
  (- Z.of_nat (plotted_items data plottype) ≤ h < 0)%Z →
  len_of data = plotted_items data plottype →
  define_colors (HList [h]) data plottype = define_colors (HInt h) data plottype.
Proof.
  intros Hh Hlen. unfold define_colors.
  assert (is_series data || is_frame data = true) by (destruct data; [simpl in *; lia|done..]).
  rewrite initial_colors_eq by done.
  assert (py_len data = Ok (len_of data)) as -> by (by destruct data).
  rewrite Hlen. generalize dependent (plotted_items data plottype). intros n Hh _.
  simpl. rewrite decide_True by lia.
  unfold list_setitem, py_position. rewrite length_replicate.
  rewrite decide_True by lia. rewrite (decide_False (P:=(0 ≤ h < _)%Z)) by lia.
  rewrite decide_True by lia. done.
Qed.



(** C6.  On a table the two forms differ: the single index [-1] marks the
    last column, the list [[-1]] is normalised with the number of rows and
    marks column [rows - 1], or raises when there is no such column. *)
Theorem define_colors_list_uses_row_count :
  define_colors (HInt (-1)) (PFrame table_2x3) "bar"
    = Ok ["lightgray"; "lightgray"; "purple"]
  ∧ define_colors (HList [-1]%Z) (PFrame table_2x3) "bar"
    = Ok ["lightgray"; "purple"; "lightgray"]
  ∧ define_colors (HInt (-1)) (PFrame table_3x2) "bar" = Ok ["lightgray"; "purple"]
  ∧ define_colors (HList [-1]%Z) (PFrame table_3x2) "bar" = Raise IndexError.
Proof. repeat split; reflexivity. Qed.

(** ** Chart-type selection *)

Lemma tolerance_nonneg : 0 ≤ tolerance.
Proof. by apply (bool_decide_unpack _). Qed.

Lemma Qc_max_ge_l a b : a ≤ Qc_max a b.
Proof. unfold Qc_max. case_decide; [done|apply Qcle_refl]. Qed.

Lemma Qc_max_ge_r a b : b ≤ Qc_max a b.
Proof.
  unfold Qc_max. case_decide; [apply Qcle_refl|].
  apply Qclt_le_weak, Qclt_nge. done.
Qed.

Lemma Qcabs_tol x : Qcabs (tolerance * x) = tolerance * Qcabs x.
Proof. rewrite Qcabs_Qcmult. by rewrite (Qcabs_pos tolerance) by apply tolerance_nonneg. Qed.

Lemma tol_mono x y : x ≤ y → tolerance * x ≤ tolerance * y.
Proof.
  intros. rewrite !(Qcmult_comm tolerance).
  apply Qcmult_le_compat_r; [done|apply tolerance_nonneg].
Qed.

(** [math.isclose(a, 1)] is the relative tolerance test. *)
Lemma isclose_one a : isclose a 1 = true ↔ within_tolerance a.
Proof.
  unfold isclose, within_tolerance. fold tolerance.
  rewrite (Qcabs_Qcminus 1 a), !Qcabs_tol.
  assert (Qcabs 1 = 1) as -> by (by apply (bool_decide_unpack _)).
  rewrite !orb_true_iff, !bool_decide_eq_true. split.
  - intros [->|[[H|H]|H]].
    + replace (1 - 1) with 0 by ring.
      replace (Qcabs 0) with 0 by (by apply (bool_decide_unpack _)).
      rewrite <-(Qcmult_0_r tolerance). apply tol_mono.
      eapply Qcle_trans; [|apply Qc_max_ge_r]. by apply (bool_decide_unpack _).
    + eapply Qcle_trans; [exact H|]. apply tol_mono, Qc_max_ge_r.
    + eapply Qcle_trans; [exact H|]. apply tol_mono, Qc_max_ge_l.
    + eapply Qcle_trans; [exact H|]. unfold abs_tol.
      rewrite <-(Qcmult_0_r tolerance). apply tol_mono.
      eapply Qcle_trans; [|apply Qc_max_ge_r]. by apply (bool_decide_unpack _).
  - intros H. right. left. unfold Qc_max in H. case_decide; [by left|by right].
Qed.

Lemma is_percentage_series_spec env vals :
  is_percentage_series env vals = true ↔ percentage_test (series_sum env) vals.
Proof.
  unfold is_percentage_series, percentage_test.
  rewrite andb_true_iff, isclose_one, forallb_forall, Forall_forall.
  apply and_iff_compat_r. apply forall_proper; intros v.
  rewrite andb_true_iff, !bool_decide_eq_true, <-list_elem_of_In. done.
Qed.

Lemma all_columns_percentage_spec env d :
  all_columns_percentage env d = true
  ↔ Forall (λ c, percentage_test (series_sum env) c.2) (df_columns d).
Proof.
  unfold all_columns_percentage. rewrite forallb_forall, Forall_forall.
  apply forall_proper; intros c. rewrite <-list_elem_of_In, is_percentage_series_spec. done.
Qed.

(** C2, amended.  For a single series or a table [pick_plottype] returns
    the kind given by the ordered rules: on a time axis, bar_timeseries
    below 10 points and line_timeseries otherwise; else for a series,
    waterfall when the values lie in [0,1] and their floating-point sum, as
    the installed pandas returns it, is 1 within the tolerance, bar
    otherwise; else composition_comparison when every column passes that
    test, scatter otherwise. *)
Theorem pick_plottype_select_kind env (t : table) :
  pick_plottype env (pdata_of t) = Ok (select_kind (series_sum env) t).
Proof.
  unfold pick_plottype, select_kind.
  destruct t as [s|d]; simpl; destruct (s_datetime _) || destruct (df_datetime _); simpl.
  - by case_decide.
  - pose proof (is_percentage_series_spec env (s_values s)) as Hs.
    destruct (is_percentage_series _ _) eqn:E; case_decide as Hp; try done.
    + exfalso. by apply Hp, Hs.
    + apply Hs in Hp. done.
  - by case_decide.
  - pose proof (all_columns_percentage_spec env d) as Hs.
    destruct (all_columns_percentage _ _) eqn:E; case_decide as Hp; try done.
    + exfalso. by apply Hp, Hs.
    + apply Hs in Hp. done.
Qed.

(** C2 as stated fails where rounding carries the sum across the
    tolerance: the series of the floating-point numbers 0.5 and 0.500000001
    passes the percentage test on the sum of its values, and is drawn as
    bar, because the floating-point sum of the two is farther from 1 than
    their sum. *)
Lemma pick_plottype_rounded_sum_decides :
  select_kind Qc_sum (SingleSeries series_half_half) = "waterfall"
  ∧ pick_plottype pandas_3 (PSeries series_half_half) = Ok "bar".
Proof. split; apply (bool_decide_unpack _); vm_compute; exact I. Qed.

(** ** Label overlay *)

Lemma Qc_of_nat_plus_2_ne_0 n : Qc_of_nat n + 2 ≠ 0.
Proof.
  unfold Qc_of_nat. rewrite <-Z2Qc_inj_2, <-Z2Qc_inj_add, <-Z2Qc_inj_0.
  intros H%Z2Qc_inj. lia.
Qed.

Lemma label_slot_coord_spec (nudge : option (nat * nat)) i :
  label_slot_coord (fst <$> nudge) (snd <$> nudge) i
  = match nudge with
    | Some (bar_nr, nr_bars) =>
        Qc_of_nat i - qc 1 2 + (Qc_of_nat bar_nr + 1) / (Qc_of_nat nr_bars + 2)
    | None => Qc_of_nat i
    end.
Proof.
  destruct nudge as [[b n]|]; simpl; [|done].
  field. apply Qc_of_nat_plus_2_ne_0.
Qed.

Lemma label_loop_run (lim : Qc * Qc) strfmt orient textcolor nudge :
  ∀ (items : list (Qc * Qc)) i0 fig,
  label_loop (lim.2 - lim.1) strfmt orient textcolor
             (if decide (orient = "v") then "center" else "bottom")
             (if decide (orient = "v") then "left" else "center")
             (fst <$> nudge) (snd <$> nudge) i0
             (prod_map ANum ANum <$> items) fig
  = (Ok (), fig ++ imap (λ i it, spec_label lim orient strfmt textcolor nudge
                                            (i0 + i) it.1 it.2) items).
Proof.
  induction items as [|[v dv] items IH]; intros i0 fig.
  - simpl. by rewrite app_nil_r.
  - cbn [fmap list_fmap prod_map fst snd label_loop imap].
    unfold mbind, Draw_bind, dbind, dlift, emit in *. cbn [atom_number format_label fst snd].
    rewrite IH. rewrite <-app_assoc. cbn [app]. do 3 f_equal.
    + unfold spec_label, label_value_coord. rewrite label_slot_coord_spec, Nat.add_0_r.
      by case_decide.
    + apply imap_ext. intros i x _. simpl. by rewrite Nat.add_succ_r.
Qed.

(** C7.  For bars ending at the values of [s] on an axis whose value range
    is [lim], [plot_values_above_bar] draws, for the bar in slot [i] ending
    at [v], a label at [v + 0.025 * (hi - lo)] along the value axis; its
    category coordinate is [i], or [i - 0.5 + (bar_nr + 1) / (nr_bars + 2)]
    when [bar_nr] and [nr_bars] are both given. *)
Theorem plot_values_above_bar_positions autoscale fig (s : Series) (dv : option Series)
    strfmt orient textcolor (nudge : option (nat * nat)) :
  orient = "v" ∨ orient = "h" →
  let lim := if decide (orient = "v") then (autoscale fig).1 else (autoscale fig).2 in
  plot_values_above_bar autoscale (PSeries s) (PSeries <$> dv) strfmt orient textcolor
                        (fst <$> nudge) (snd <$> nudge) fig
  = (Ok (), fig ++ imap (λ i it, spec_label lim orient strfmt textcolor nudge i it.1 it.2)
                        (zip (s_values s) (s_values (default s dv)))).
Proof.
  intros Ho lim. unfold plot_values_above_bar.
  rewrite bool_decide_eq_true_2 by (destruct nudge; simpl; split; intros [? ?]; eauto).
  assert (default (PSeries s) (PSeries <$> dv) = PSeries (default s dv)) as -> by (by destruct dv).
  pose proof (label_loop_run lim strfmt orient textcolor nudge
                (zip (s_values s) (s_values (default s dv))) 0 fig) as Hrun.
  assert (prod_map ANum ANum <$> zip (s_values s) (s_values (default s dv))
          = zip (ANum <$> s_values s) (ANum <$> s_values (default s dv))) as Hz.
  { generalize (s_values s) (s_values (default s dv)).
    induction l as [|x l IH]; intros [|y l']; simpl; [done..|]. by rewrite IH. }
  rewrite Hz in Hrun. clear Hz.
  unfold mbind, Draw_bind, dbind, dret, draise, dlift, get_xlim, get_ylim, drawn.
  subst lim. destruct Ho as [-> | ->]; simpl in *; exact Hrun.
Qed.


Lemma plot_values_above_bar_positions_witness :
  plot_values_above_bar limits_0_100 (PSeries series_40) None ".2f" "v" "black" None None []
  = (Ok (), [spec_label (0, qc 100 1) "v" ".2f" "black" None 0 (qc 40 1) (qc 40 1)]).
Proof.
  exact (plot_values_above_bar_positions limits_0_100 [] series_40 None ".2f" "v" "black"
           None (or_introl eq_refl)).
Defined.

(** On an axis ranging over [0, 100] a bar ending at 40 gets its label at
    42.5; the second of three grouped series is nudged to slot - 0.1. *)
Example label_at_42_5 :
  spec_label (0, qc 100 1) "v" ".2f" "black" None 0 (qc 40 1) (qc 40 1)
  = CmdText (mkText (qc 425 10) 0 (qc 40 1) ".2f" "black" "center" "left").
Proof. apply (bool_decide_unpack _). vm_compute. exact I. Qed.

Example label_nudged :
  spec_label (0, qc 100 1) "v" ".2f" "black" (Some (1, 3)%nat) 2 (qc 40 1) (qc 40 1)
  = CmdText (mkText (qc 425 10) (qc 19 10) (qc 40 1) ".2f" "black" "center" "left").
Proof. apply (bool_decide_unpack _). vm_compute. exact I. Qed.

(** ** Running computations *)

Lemma lookup_snoc_length {A} (l : list A) x : (l ++ [x]) !! length l = Some x.
Proof. by rewrite lookup_app_r, Nat.sub_diag by lia. Qed.

Lemma bind_ok {A B} (m : M A) (f : A → M B) w a w' :
  m w = (Ok a, w') → (m ≫= f) w = f a w'.
Proof. intros H. unfold mbind, M_bind, bind. by rewrite H. Qed.

Lemma bind_raise {A B} (m : M A) (f : A → M B) w e w' :
  m w = (Raise e, w') → (m ≫= f) w = (Raise e, w').
Proof. intros H. unfold mbind, M_bind, bind. by rewrite H. Qed.

Lemma lift_bind {A B} (r : result A) (f : A → M B) w :
  (lift r ≫= f) w = match r with Ok a => f a w | Raise e => (Raise e, w) end.
Proof. by destruct r. Qed.

Lemma ret_bind {A B} (a : A) (f : A → M B) w : (ret a ≫= f) w = f a w.
Proof. done. Qed.

Lemma deref_run r w d : heap w !! r = Some d → deref r w = (Ok d, w).
Proof. intros H. unfold deref. by rewrite H. Qed.

Lemma draw_heap {A} (m : Draw A) w : heap (draw m w).2 = heap w.
Proof. unfold draw. by destruct (m (figure w)). Qed.

Lemma sort_values_ref_run env r w s a :
  heap w !! r = Some (PSeries s) →
  sort_values_ref env r a w
  = (Ok (length (heap w)), mkWorld (heap w ++ [PSeries (sort_values env s a)]) (figure w)).
Proof. intros H. unfold sort_values_ref. by rewrite (bind_ok _ _ _ _ _ (deref_run _ _ _ H)). Qed.

Lemma sort_values_ref_raise env r w d a :
  heap w !! r = Some d → is_series d = false →
  sort_values_ref env r a w = (Raise TypeError, w).
Proof.
  intros H Hs. unfold sort_values_ref. rewrite (bind_ok _ _ _ _ _ (deref_run _ _ _ H)).
  by destruct d.
Qed.

Lemma squeeze_ref_run env r w d :
  heap w !! r = Some d →
  squeeze_ref env r w =
  match squeeze d with
  | Some d' => (Ok (length (heap w)), mkWorld (heap w ++ [d']) (figure w))
  | None => (Ok (squeeze_target env r (heap w)),
             mkWorld (heap w ++ squeeze_copy env d) (figure w))
  end.
Proof.
  intros H. unfold squeeze_ref, squeeze_target, squeeze_copy.
  rewrite (bind_ok _ _ _ _ _ (deref_run _ _ _ H)).
  destruct (squeeze d); [done|]. destruct (squeeze_nothing env); [|done].
  destruct w. unfold ret. simpl. by rewrite app_nil_r.
Qed.

Lemma squeeze_ref_bind env {B} r w d (f : ref → M B) :
  heap w !! r = Some d →
  (squeeze_ref env r ≫= f) w =
  match squeeze d with
  | Some d' => f (length (heap w)) (mkWorld (heap w ++ [d']) (figure w))
  | None => f (squeeze_target env r (heap w))
              (mkWorld (heap w ++ squeeze_copy env d) (figure w))
  end.
Proof.
  intros H. unfold mbind at 1, M_bind, bind. rewrite (squeeze_ref_run _ _ _ _ H).
  by destruct (squeeze d).
Qed.

(** The reference [squeeze] returns when nothing is squeezed refers to the
    data it was called on. *)
Lemma squeeze_target_lookup env (r : ref) h d :
  h !! r = Some d → (h ++ squeeze_copy env d) !! squeeze_target env r h = Some d.
Proof.
  intros H. unfold squeeze_target, squeeze_copy. destruct (squeeze_nothing env).
  - by rewrite app_nil_r.
  - apply lookup_snoc_length.
Qed.

Lemma squeezed_world_lookup env (r : ref) w d :
  heap w !! r = Some d →
  heap (mkWorld (heap w ++ squeeze_copy env d) (figure w)) !! squeeze_target env r (heap w)
  = Some d.
Proof. apply squeeze_target_lookup. Qed.

(** ** Waterfall *)

Lemma cumsum_from_length acc l : length (cumsum_from acc l) = length l.
Proof. revert acc. induction l as [|x l IH]; intros acc; simpl; [done|]. by rewrite IH. Qed.

Lemma cumsum_from_lookup l : ∀ acc i, (i < length l)%nat →
  cumsum_from acc l !! i = Some (acc + Qc_sum (take (S i) l)).
Proof.
  induction l as [|x l IH]; intros acc i Hi; simpl in *; [lia|].
  destruct i as [|i]; simpl.
  - f_equal. ring.
  - rewrite IH by lia. f_equal. simpl. ring.
Qed.

(** The offset of a position is the sum of the values before it. *)
Lemma running_offsets_lookup l i : (i < length l)%nat →
  running_offsets l !! i = Some (Qc_sum (take i l)).
Proof.
  intros Hi. unfold running_offsets, fillna, shift, cumsum.
  rewrite list_lookup_fmap, cumsum_from_length, lookup_take_lt by done.
  destruct i as [|i]; simpl; [done|].
  rewrite list_lookup_fmap, cumsum_from_lookup by lia. simpl. f_equal. ring.
Qed.

Lemma running_offsets_length l : length (running_offsets l) = length l.
Proof.
  unfold running_offsets, fillna, shift, cumsum.
  rewrite length_fmap, length_take, cumsum_from_length. simpl.
  rewrite length_fmap, cumsum_from_length. lia.
Qed.

Lemma running_offsets_spec l :
  running_offsets l = (λ i, Qc_sum (take i l)) <$> seq 0 (length l).
Proof.
  apply list_eq. intros i. rewrite list_lookup_fmap.
  destruct (decide (i < length l)%nat).
  - rewrite running_offsets_lookup, lookup_seq_lt by done. done.
  - rewrite lookup_seq_ge by lia. apply lookup_ge_None. rewrite running_offsets_length. lia.
Qed.

Lemma offsets_labels (s : Series) :
  (zip (s_labels s) (running_offsets (s_values s))).*1 = s_labels s.
Proof.
  apply fst_zip. unfold s_labels, s_values. rewrite running_offsets_length, !length_fmap. done.
Qed.

Lemma blank_labels name dt (s : Series) :
  s_labels (mkSeries name dt (zip (s_labels s) (running_offsets (s_values s)))) = s_labels s.
Proof. apply offsets_labels. Qed.

(** What [plot_waterfall] does to a Series: the object [data] refers to
    is overwritten with the table, and a build-up adds a reversed copy. *)
Lemma plot_waterfall_series_run w data s color buildup kw :
  heap w !! data = Some (PSeries s) →
  let colors := default (replicate (length (s_rows s)) "lightgray") color ++ ["gray"] in
  plot_waterfall data color buildup kw w =
  if buildup then
    (Ok (length (heap w), PSeries (reversed_series (waterfall_offsets s))),
     mkWorld (<[data := PSeries (waterfall_table s)]> (heap w)
              ++ [PSeries (reversed_series (waterfall_table s))])
             (figure w ++ [CmdPlot (Some "barh") true
                             (Some (PSeries (reversed_series (waterfall_offsets s))))
                             (reverse colors)
                             (PSeries (reversed_series (waterfall_table s))) kw]))
  else
    (Ok (data, PSeries (waterfall_offsets s)),
     mkWorld (<[data := PSeries (waterfall_table s)]> (heap w))
             (figure w ++ [CmdPlot (Some "barh") true
                             (Some (PSeries (waterfall_offsets s)))
                             colors (PSeries (waterfall_table s)) kw])).
Proof.
  intros Hd colors. subst colors.
  assert (data < length (heap w))%nat as Hlt by (by eapply lookup_lt_Some).
  unfold plot_waterfall, loc_set_ref. unfold_M.
  rewrite Hd. unfold waterfall_offsets, waterfall_table, reversed_series.
  destruct buildup, color as [c|]; simpl; rewrite ?Hd; simpl;
    repeat (first [ rewrite lookup_snoc_length | rewrite length_insert
                  | rewrite list_lookup_insert_eq by done ]; simpl);
    fold (s_labels s); rewrite ?blank_labels; done.
Qed.

(** With no category called 'total' the row is added at the end. *)
Lemma waterfall_table_fresh s :
  TOTAL ∉ s_labels s →
  waterfall_table s
  = mkSeries (s_name s) false (s_rows s ++ [(TOTAL, Qc_sum (s_values s))]).
Proof.
  intros H. unfold waterfall_table, enlarged_datetime, loc_set_rows. fold (s_labels s).
  by rewrite !decide_False by done.
Qed.

Lemma waterfall_offsets_fresh s :
  TOTAL ∉ s_labels s →
  waterfall_offsets s
  = mkSeries (s_name s) false
      (zip (s_labels s) ((λ i, Qc_sum (take i (s_values s))) <$> seq 0 (length (s_rows s)))
       ++ [(TOTAL, 0)]).
Proof.
  intros H. unfold waterfall_offsets, enlarged_datetime, loc_set_rows.
  rewrite offsets_labels, !decide_False by done.
  rewrite running_offsets_spec. unfold s_values at 2. by rewrite length_fmap.
Qed.

(** For a Series without a category called 'total', [plot_waterfall]
    returns the offsets [sum(series[0..i-1])], and adds the category
    'total' with the sum of the values, offset 0 and the colour gray. *)
Lemma plot_waterfall_appends_total w data s color kw :
  heap w !! data = Some (PSeries s) → TOTAL ∉ s_labels s →
  waterfall_outcome (plot_waterfall data color false kw w)
  = Ok (PSeries (mkSeries (s_name s) false (s_rows s ++ [(TOTAL, Qc_sum (s_values s))])),
        PSeries (mkSeries (s_name s) false
                   (zip (s_labels s)
                        ((λ i, Qc_sum (take i (s_values s))) <$> seq 0 (length (s_rows s)))
                    ++ [(TOTAL, 0)])),
        default (replicate (length (s_rows s)) "lightgray") color ++ ["gray"]).
Proof.
  intros Hd Ht. rewrite (plot_waterfall_series_run _ _ _ _ _ _ Hd).
  unfold waterfall_outcome. simpl.
  rewrite list_lookup_insert_eq by (by eapply lookup_lt_Some).
  rewrite last_snoc. by rewrite waterfall_table_fresh, waterfall_offsets_fresh.
Qed.


(** The series [10, -3, 5] has the offsets [0, 10, 7] and the total 12 at
    offset 0. *)
Example waterfall_10_m3_5 :
  waterfall_outcome (plot_waterfall 0%nat None false [] (fresh_world (PSeries series_10_m3_5)))
  = Ok (PSeries (mkSeries None false
                   [(LInt 0, qc 10 1); (LInt 1, qc (-3) 1); (LInt 2, qc 5 1);
                    (TOTAL, qc 12 1)]),
        PSeries (mkSeries None false
                   [(LInt 0, 0); (LInt 1, qc 10 1); (LInt 2, qc 7 1); (TOTAL, 0)]),
        ["lightgray"; "lightgray"; "lightgray"; "gray"]).
Proof. apply (bool_decide_unpack _). vm_compute. exact I. Qed.


(** C3.  For a Series that already has a category called 'total' nothing
    is added to the table: [data.loc['total'] = total] overwrites that row
    with the sum 3, [blank.loc['total'] = 0] replaces its offset 1 by 0, and
    the colour list still grows, to three colours for two rows. *)
Theorem plot_waterfall_existing_total_row :
  waterfall_outcome (plot_waterfall 0%nat None false [] (fresh_world (PSeries series_with_total)))
  = Ok (PSeries (mkSeries None false [(LStr "a", qc 1 1); (LStr "total", qc 3 1)]),
        PSeries (mkSeries None false [(LStr "a", 0); (LStr "total", 0)]),
        ["lightgray"; "lightgray"; "gray"])
  ∧ running_offsets (s_values series_with_total) = [0; qc 1 1].
Proof. split; apply (bool_decide_unpack _); vm_compute; exact I. Qed.

Lemma mirrored_reverse {A} (l : list A) : mirrored l (reverse l).
Proof.
  split; [apply length_reverse|]. intros i x Hi.
  pose proof (lookup_lt_Some _ _ _ Hi) as Hlt.
  rewrite reverse_lookup by lia. rewrite <-Hi. f_equal. lia.
Qed.

(** C4.  A build-up hands out the table, the offsets and the colours of
    the build-down of the same Series, each element by element in reverse
    order: the reversal is applied to all three after the 'total' row is
    added, which is the last row of the build-down and the first of the
    build-up. *)
Theorem plot_waterfall_buildup_reverses w (data : ref) s color kw :
  heap w !! data = Some (PSeries s) →
  ∃ table offsets colors table' offsets' colors',
    waterfall_outcome (plot_waterfall data color false kw w)
      = Ok (PSeries table, PSeries offsets, colors)
    ∧ waterfall_outcome (plot_waterfall data color true kw w)
      = Ok (PSeries table', PSeries offsets', colors')
    ∧ mirrored (s_rows table) (s_rows table')
    ∧ mirrored (s_rows offsets) (s_rows offsets')
    ∧ mirrored colors colors'
    ∧ (TOTAL ∉ s_labels s →
       last (s_rows table) = Some (TOTAL, Qc_sum (s_values s))
       ∧ head (s_rows table') = Some (TOTAL, Qc_sum (s_values s))).
Proof.
  intros Hd.
  assert (data < length (heap w))%nat as Hlt by (by eapply lookup_lt_Some).
  exists (waterfall_table s), (waterfall_offsets s),
    (default (replicate (length (s_rows s)) "lightgray") color ++ ["gray"]),
    (reversed_series (waterfall_table s)), (reversed_series (waterfall_offsets s)),
    (reverse (default (replicate (length (s_rows s)) "lightgray") color ++ ["gray"])).
  rewrite !(plot_waterfall_series_run _ _ _ _ _ _ Hd). unfold waterfall_outcome.
  cbn [fst snd heap figure]. rewrite !last_snoc.
  rewrite list_lookup_insert_eq by done.
  rewrite <-(length_insert (heap w) data (PSeries (waterfall_table s))) at 1.
  rewrite lookup_snoc_length.
  repeat split; try apply mirrored_reverse; try apply length_reverse.
  - rewrite (waterfall_table_fresh s) by done. simpl. apply last_snoc.
  - rewrite (waterfall_table_fresh s) by done. simpl. by rewrite reverse_snoc.
Qed.

Lemma plot_waterfall_buildup_reverses_witness :
  ∃ table offsets colors table' offsets' colors',
    waterfall_outcome (plot_waterfall 0%nat None false [] (fresh_world (PSeries series_10_m3_5)))
      = Ok (PSeries table, PSeries offsets, colors)
    ∧ waterfall_outcome (plot_waterfall 0%nat None true [] (fresh_world (PSeries series_10_m3_5)))
      = Ok (PSeries table', PSeries offsets', colors')
    ∧ mirrored (s_rows table) (s_rows table')
    ∧ mirrored (s_rows offsets) (s_rows offsets')
    ∧ mirrored colors colors'
    ∧ (TOTAL ∉ s_labels series_10_m3_5 →
       last (s_rows table) = Some (TOTAL, Qc_sum (s_values series_10_m3_5))
       ∧ head (s_rows table') = Some (TOTAL, Qc_sum (s_values series_10_m3_5))).
Proof.
  apply (plot_waterfall_buildup_reverses (fresh_world (PSeries series_10_m3_5)) 0%nat
           series_10_m3_5 None []).
  reflexivity.
Defined.

(** In the build-up of [10, -3, 5] the 'total' row comes first. *)
Example waterfall_buildup_10_m3_5 :
  waterfall_outcome (plot_waterfall 0%nat None true [] (fresh_world (PSeries series_10_m3_5)))
  = Ok (PSeries (mkSeries None false
                   [(TOTAL, qc 12 1); (LInt 2, qc 5 1); (LInt 1, qc (-3) 1);
                    (LInt 0, qc 10 1)]),
        PSeries (mkSeries None false
                   [(TOTAL, 0); (LInt 2, qc 7 1); (LInt 1, qc 10 1); (LInt 0, 0)]),
        ["gray"; "lightgray"; "lightgray"; "lightgray"]).
Proof. apply (bool_decide_unpack _). vm_compute. exact I. Qed.

(** ** What a call leaves behind *)

Section Frame.
Context (h0 : list pdata).








End Frame.


Lemma squeeze_series_None s : length (s_rows s) ≠ 1%nat → squeeze (PSeries s) = None.
Proof. simpl. destruct (s_rows s) as [|r [|r' rows]]; simpl; done. Qed.






(** ** Runs on equal objects *)

Lemma draw_observe {A} (m : Draw A) w1 w2 :
  figure w1 = figure w2 → observe (draw m w1) = observe (draw m w2).
Proof. intros H. unfold observe, draw. rewrite H. by destruct (m (figure w2)). Qed.

Lemma plot_waterfall_sim r1 w1 r2 w2 color buildup kw :
  same_object r1 w1 r2 w2 →
  match plot_waterfall r1 color buildup kw w1, plot_waterfall r2 color buildup kw w2 with
  | (Ok (ra, blank_a), wa), (Ok (rb, blank_b), wb) =>
      blank_a = blank_b ∧ same_object ra wa rb wb
  | (Raise ea, wa), (Raise eb, wb) => ea = eb ∧ figure wa = figure wb
  | _, _ => False
  end.
Proof.
  intros (Hfig & d & H1 & H2). unfold same_object, plot_waterfall, loc_set_ref. unfold_M.
  rewrite H1, H2.
  assert (r1 < length (heap w1))%nat by (by eapply lookup_lt_Some).
  assert (r2 < length (heap w2))%nat by (by eapply lookup_lt_Some).
  destruct d as [q|s|f], color as [c|], buildup; simpl; rewrite ?H1, ?H2; simpl; try done;
    repeat (first [ rewrite lookup_snoc_length | rewrite length_insert
                  | rewrite list_lookup_insert_eq by done ]; simpl);
    rewrite ?Hfig; eauto.
Qed.

Lemma label_waterfall_sim autoscale r1 w1 r2 w2 blank strfmt orient :
  same_object r1 w1 r2 w2 →
  observe (label_waterfall autoscale r1 blank strfmt orient w1)
  = observe (label_waterfall autoscale r2 blank strfmt orient w2).
Proof.
  intros (Hfig & d & H1 & H2). unfold label_waterfall.
  unfold mbind, M_bind, bind, lift, deref. rewrite H1, H2.
  destruct (pd_add d blank) as [pos|e].
  - by apply draw_observe.
  - unfold observe. simpl. by rewrite Hfig.
Qed.

Lemma dispatch_sim autoscale plottype r1 w1 r2 w2 d hl color strfmt orient kw :
  same_object r1 w1 r2 w2 →
  observe (dispatch autoscale plottype r1 d hl color strfmt orient kw w1)
  = observe (dispatch autoscale plottype r2 d hl color strfmt orient kw w2).
Proof.
  intros Hs. pose proof Hs as [Hfig _]. unfold dispatch.
  repeat case_decide; try (by apply draw_observe);
    try (unfold raise, observe; simpl; by rewrite Hfig).
  - unfold mbind, M_bind, bind.
    pose proof (plot_waterfall_sim r1 w1 r2 w2 (Some color) false kw Hs) as Hpw.
    destruct (plot_waterfall r1 _ _ _ w1) as [[[ra ba]|ea] wa],
             (plot_waterfall r2 _ _ _ w2) as [[[rb bb]|eb] wb]; try done.
    + destruct Hpw as [-> Hpw]. by apply label_waterfall_sim.
    + destruct Hpw as [-> Hpw]. unfold observe. simpl. by rewrite Hpw.
  - unfold mbind, M_bind, bind.
    pose proof (plot_waterfall_sim r1 w1 r2 w2 (Some color) true kw Hs) as Hpw.
    destruct (plot_waterfall r1 _ _ _ w1) as [[[ra ba]|ea] wa],
             (plot_waterfall r2 _ _ _ w2) as [[[rb bb]|eb] wb]; try done.
    + destruct Hpw as [-> Hpw]. by apply label_waterfall_sim.
    + destruct Hpw as [-> Hpw]. unfold observe. simpl. by rewrite Hpw.
  - by destruct H2.
Qed.

Lemma tail_sim autoscale k r1 w1 r2 w2 hl color strfmt orient kw :
  same_object r1 w1 r2 w2 →
  observe ((d ← deref r1;
            dispatch autoscale k r1 d hl color strfmt orient kw;;
            draw (finish k orient)) w1)
  = observe ((d ← deref r2;
              dispatch autoscale k r2 d hl color strfmt orient kw;;
              draw (finish k orient)) w2).
Proof.
  intros Hs. pose proof Hs as (Hfig & d & H1 & H2).
  rewrite (bind_ok _ _ _ _ _ (deref_run _ _ _ H1)), (bind_ok _ _ _ _ _ (deref_run _ _ _ H2)).
  pose proof (dispatch_sim autoscale k r1 w1 r2 w2 d hl color strfmt orient kw Hs) as Hd.
  unfold mbind, M_bind, bind.
  destruct (dispatch _ _ r1 _ _ _ _ _ _ w1) as [[[]|ea] wa],
           (dispatch _ _ r2 _ _ _ _ _ _ w2) as [[[]|eb] wb];
    unfold observe in Hd; simpl in Hd; simplify_eq.
  - by apply draw_observe.
  - unfold observe. simpl. by f_equal.
Qed.

(** What [render] returns and draws depends on the object [data] refers
    to, not on where that object lives. *)
Lemma render_sim autoscale env r1 w1 r2 w2 hl plottype ascending strfmt kw :
  same_object r1 w1 r2 w2 →
  observe (render autoscale env r1 hl plottype ascending strfmt kw w1)
  = observe (render autoscale env r2 hl plottype ascending strfmt kw w2).
Proof.
  intros Hs. pose proof Hs as (Hfig & d & H1 & H2). unfold render.
  rewrite (bind_ok _ _ _ _ _ (deref_run _ _ _ H1)), (bind_ok _ _ _ _ _ (deref_run _ _ _ H2)).
  assert (∃ rk : result string,
            (match plottype with Some p => ret p | None => lift (pick_plottype env d) end
             : M string) = lift rk) as [rk ->].
  { destruct plottype as [p|]; eauto. }
  rewrite !lift_bind.
  destruct rk as [k|e]; [|unfold observe; simpl; by rewrite Hfig].
  rewrite !lift_bind.
  destruct (define_colors hl d k) as [color|e]; [|unfold observe; simpl; by rewrite Hfig].
  destruct (if bool_decide (k ∈ unsorted_kinds) || negb (is_series d) then None else ascending)
    as [a|].
  - destruct d as [q|s|f].
    + rewrite (bind_raise _ _ _ _ _ (sort_values_ref_raise _ _ _ _ a H1 eq_refl)),
              (bind_raise _ _ _ _ _ (sort_values_ref_raise _ _ _ _ a H2 eq_refl)).
      unfold observe. simpl. by rewrite Hfig.
    + rewrite (bind_ok _ _ _ _ _ (sort_values_ref_run _ _ _ _ a H1)),
              (bind_ok _ _ _ _ _ (sort_values_ref_run _ _ _ _ a H2)).
      apply tail_sim. split; [done|]. eexists. split; apply lookup_snoc_length.
    + rewrite (bind_raise _ _ _ _ _ (sort_values_ref_raise _ _ _ _ a H1 eq_refl)),
              (bind_raise _ _ _ _ _ (sort_values_ref_raise _ _ _ _ a H2 eq_refl)).
      unfold observe. simpl. by rewrite Hfig.
  - rewrite !ret_bind. by apply tail_sim.
Qed.

(** Squeezing a table with one column gives what squeezing that column
    gives: the column, or its only value when there is one row. *)
Lemma squeeze_only_column d s :
  frame_wf d → only_column d = Some s →
  squeeze (PFrame d) = Some (default (PSeries s) (squeeze (PSeries s))).
Proof.
  unfold frame_wf, only_column. destruct d as [dt ct idx cols]. simpl.
  destruct cols as [|[c vals] [|]]; intros Hwf [= <-]; simpl.
  apply Forall_inv in Hwf. simpl in Hwf.
  destruct idx as [|l [|l' idx]], vals as [|v [|v' vals]]; simpl in *; done.
Qed.

(** C10.  For a table with exactly one column [micompanyify] returns and
    draws exactly what it returns and draws for that column passed as a
    single series, whatever the highlight, kind, sort order and format. *)
Theorem single_column_table_as_series autoscale env (r1 r2 : ref) w1 w2 d s
    hl plottype ascending strfmt kw :
  frame_wf d → only_column d = Some s →
  heap w1 !! r1 = Some (PFrame d) → heap w2 !! r2 = Some (PSeries s) →
  figure w1 = figure w2 →
  observe (micompanyify autoscale env r1 hl plottype ascending strfmt kw w1)
  = observe (micompanyify autoscale env r2 hl plottype ascending strfmt kw w2).
Proof.
  intros Hwf Hcol H1 H2 Hfig. unfold micompanyify.
  rewrite (bind_ok _ _ _ _ _ (deref_run _ _ _ H1)), (bind_ok _ _ _ _ _ (deref_run _ _ _ H2)).
  simpl. rewrite !ret_bind.
  rewrite (squeeze_ref_bind _ _ _ _ _ H1), (squeeze_ref_bind _ _ _ _ _ H2).
  rewrite (squeeze_only_column d s Hwf Hcol).
  destruct (squeeze (PSeries s)) as [d'|]; simpl; apply render_sim.
  - split; [done|]. exists d'. split; apply lookup_snoc_length.
  - split; [done|]. exists (PSeries s).
    split; [apply lookup_snoc_length|by apply squeeze_target_lookup].
Qed.



Lemma single_column_table_as_series_witness :
  observe (micompanyify limits_0_100 pandas_3 0%nat (HInt (-1)) None (Some true) None []
                        (fresh_world (PFrame table_one_column)))
  = observe (micompanyify limits_0_100 pandas_3 0%nat (HInt (-1)) None (Some true) None []
                          (fresh_world (PSeries column_x))).
Proof.
  apply (single_column_table_as_series limits_0_100 pandas_3 0%nat 0%nat
           (fresh_world (PFrame table_one_column)) (fresh_world (PSeries column_x))
           table_one_column column_x); try reflexivity.
  by repeat constructor.
Defined.

(** The one-column table with three rows is drawn as a sorted bar chart
    with three colours, one per category. *)
Example single_column_table_plot :
  first_plot (figure (micompanyify limits_0_100 pandas_3 0%nat (HInt (-1)) None (Some true) None []
                                   (fresh_world (PFrame table_one_column))).2)
  = Some (PSeries (mkSeries (Some (LStr "x")) false
                     [(LStr "b", qc 1 1); (LStr "c", qc 2 1); (LStr "a", qc 3 1)]),
          ["lightgray"; "lightgray"; "purple"]).
Proof. apply (bool_decide_unpack _). vm_compute. exact I. Qed.

(** ** Sorting *)

Global Instance row_le_trans : Transitive row_le.
Proof. intros x y z. unfold row_le. apply Qcle_trans. Qed.

Lemma insert_row_perm r rows : insert_row r rows ≡ₚ r :: rows.
Proof.
  induction rows as [|r' rows IH]; simpl; [done|].
  case_decide; [done|]. rewrite IH. apply Permutation_swap.
Qed.

Lemma sort_rows_perm rows : sort_rows rows ≡ₚ rows.
Proof.
  induction rows as [|r rows IH]; simpl; [done|].
  rewrite insert_row_perm. by rewrite IH.
Qed.

Lemma insert_row_hd r0 r rows :
  row_le r0 r → HdRel row_le r0 rows → HdRel row_le r0 (insert_row r rows).
Proof.
  intros Hr Hh. destruct rows as [|r' rows]; simpl; [by constructor|].
  case_decide; constructor; [done|]. by inversion Hh.
Qed.

Lemma insert_row_sorted r rows : Sorted row_le rows → Sorted row_le (insert_row r rows).
Proof.
  induction 1 as [|r' rows Hs IH Hh]; simpl.
  - by repeat constructor.
  - case_decide as Hle.
    + constructor; [by constructor|]. by constructor.
    + constructor; [done|]. apply insert_row_hd; [|done].
      unfold row_le. apply Qclt_le_weak. by apply Qclt_nge.
Qed.

Lemma sort_rows_sorted rows : Sorted row_le (sort_rows rows).
Proof.
  induction rows as [|r rows IH]; simpl; [constructor|]. by apply insert_row_sorted.
Qed.

Lemma NoDup_fmap_elem_inj {A B} (f : A → B) (l : list A) x y :
  NoDup (f <$> l) → x ∈ l → y ∈ l → f x = f y → x = y.
Proof.
  induction l as [|z l IH]; simpl; intros Hnd Hx Hy Hf; [by apply elem_of_nil in Hx|].
  apply NoDup_cons in Hnd as [Hz Hnd].
  apply elem_of_cons in Hx as [->|Hx], Hy as [->|Hy]; [done| | |by apply IH].
  - exfalso. apply Hz. rewrite Hf. by apply list_elem_of_fmap_2.
  - exfalso. apply Hz. rewrite <-Hf. by apply list_elem_of_fmap_2.
Qed.

(** With distinct values there is only one way to sort the rows, whatever
    the sorting algorithm. *)
Lemma sorted_rows_unique rows l1 l2 :
  NoDup rows.*2 → l1 ≡ₚ rows → l2 ≡ₚ rows →
  Sorted row_le l1 → Sorted row_le l2 → l1 = l2.
Proof.
  intros Hnd H1 H2 Hs1 Hs2.
  apply (Sorted_unique_strong row_le); [|done|done|by rewrite H1, H2].
  intros x1 x2 Hx1 Hx2 Hle1 Hle2. rewrite H1 in Hx1. rewrite H2 in Hx2.
  apply (NoDup_fmap_elem_inj snd rows); [done..|].
  by apply Qcle_antisym.
Qed.

(** With distinct values the sort of the installed numpy is the sorted
    order. *)
Lemma np_sort_distinct env rows : NoDup rows.*2 → np_sort env rows = sort_rows rows.
Proof. intros Hnd. unfold np_sort. by rewrite decide_True. Qed.

Lemma sort_values_distinct env s a :
  NoDup (s_values s) →
  s_rows (sort_values env s a)
  = if a then sort_rows (s_rows s) else reverse (sort_rows (reverse (s_rows s))).
Proof.
  intros Hnd. unfold sort_values. cbn [s_rows].
  rewrite !np_sort_distinct; [done| |done].
  rewrite fmap_reverse. by rewrite reverse_Permutation.
Qed.

Lemma sort_values_descending_reverse env s :
  NoDup (s_values s) →
  s_rows (sort_values env s false) = reverse (s_rows (sort_values env s true)).
Proof.
  intros Hnd. rewrite !sort_values_distinct by done. f_equal.
  apply (sorted_rows_unique (s_rows s)); [done| | |apply sort_rows_sorted..].
  - by rewrite sort_rows_perm, reverse_Permutation.
  - apply sort_rows_perm.
Qed.

(** With distinct values the Series that is drawn is in the order asked
    for, whatever numpy does with equal values. *)
Lemma sorted_as_in_order env ascending s :
  NoDup (s_values s) ∨ ascending = None → sorted_as env ascending s = in_order ascending s.
Proof.
  intros H. destruct ascending as [a|]; [|done].
  destruct H as [Hnd|?]; [|done].
  pose proof (sort_values_descending_reverse env s Hnd) as Hrev.
  pose proof (sort_values_distinct env s true Hnd) as Hasc. cbn beta iota in Hasc.
  rewrite Hasc in Hrev.
  unfold sorted_as, in_order. destruct a.
  - rewrite <-Hasc. by destruct s.
  - rewrite <-Hrev. by destruct s.
Qed.

(** ** Drawings only grow *)

Lemma dgrows_bind {A B} (m : Draw A) (f : A → Draw B) :
  dgrows m → (∀ a, dgrows (f a)) → dgrows (m ≫= f).
Proof.
  intros Hm Hf fig. unfold mbind, Draw_bind, dbind.
  specialize (Hm fig). destruct (m fig) as [[a|e] fig']; simpl in *; [|done].
  etrans; [exact Hm|apply Hf].
Qed.

Lemma dgrows_dret {A} (a : A) : dgrows (dret a).
Proof. by intros fig. Qed.

Lemma dgrows_draise {A} e : dgrows (@draise A e).
Proof. by intros fig. Qed.

Lemma dgrows_dlift {A} (r : result A) : dgrows (dlift r).
Proof. by intros fig. Qed.

Lemma dgrows_emit c : dgrows (emit c).
Proof. intros fig. by apply prefix_app_r. Qed.

Lemma dgrows_drawn : dgrows drawn.
Proof. by intros fig. Qed.

Create HintDb grows.
#[local] Hint Resolve dgrows_bind dgrows_dret dgrows_draise dgrows_dlift dgrows_emit
  dgrows_drawn : grows.

Lemma dgrows_label_loop plotsize strfmt orient textcolor va ha bar_nr nr_bars items :
  ∀ i, dgrows (label_loop plotsize strfmt orient textcolor va ha bar_nr nr_bars i items).
Proof.
  induction items as [|[v dv] items IH]; intros i; simpl; [apply dgrows_dret|].
  repeat (apply dgrows_bind; [auto with grows|intros ?]). apply IH.
Qed.

Lemma dgrows_plot_values_above_bar autoscale data dv strfmt orient textcolor bar_nr nr_bars :
  dgrows (plot_values_above_bar autoscale data dv strfmt orient textcolor bar_nr nr_bars).
Proof.
  unfold plot_values_above_bar, get_xlim, get_ylim.
  apply dgrows_bind; [case_bool_decide; auto with grows|intros _].
  apply dgrows_bind; [repeat case_decide; auto 10 with grows|intros [[[? ?] ?] ?]].
  repeat (apply dgrows_bind; [auto with grows|intros ?]). apply dgrows_label_loop.
Qed.

Lemma dgrows_finish plottype orient : dgrows (finish plottype orient).
Proof.
  unfold finish. apply dgrows_bind; [auto with grows|intros _].
  destruct (_ && _); [auto with grows|]. destruct (_ && _); auto with grows.
Qed.

Lemma draw_figure_grows {A} (m : Draw A) w :
  dgrows m → figure w `prefix_of` figure (draw m w).2.
Proof. intros Hm. unfold draw. specialize (Hm (figure w)). by destruct (m (figure w)). Qed.

Lemma draw_emit_grows {A} c (m : Draw A) w :
  dgrows m → (figure w ++ [c]) `prefix_of` figure (draw (emit c;; m) w).2.
Proof.
  intros Hm. unfold draw, mbind, Draw_bind, dbind, emit.
  specialize (Hm (figure w ++ [c])). by destruct (m (figure w ++ [c])).
Qed.

Lemma label_waterfall_figure_grows autoscale data blank strfmt orient w :
  figure w `prefix_of` figure (label_waterfall autoscale data blank strfmt orient w).2.
Proof.
  unfold label_waterfall. unfold mbind, M_bind, bind, lift, deref.
  destruct (heap w !! data) as [d|]; [|done].
  destruct (pd_add d blank) as [pos|e]; [|done].
  apply draw_figure_grows, dgrows_plot_values_above_bar.
Qed.

Lemma bind_figure_grows {A B} (m : M A) (f : A → M B) w fig :
  fig `prefix_of` figure (m w).2 →
  (∀ a w', figure w' `prefix_of` figure (f a w').2) →
  fig `prefix_of` figure ((m ≫= f) w).2.
Proof.
  intros Hm Hf. unfold mbind, M_bind, bind.
  destruct (m w) as [[a|e] w']; simpl in *; [|done]. etrans; [exact Hm|apply Hf].
Qed.

(** ** Sorting and colours *)

(** The plot a sortable kind draws for the Series [data] refers to. *)
Lemma tail_series_plot autoscale k (data : ref) s hl color strfmt orient kw w :
  heap w !! data = Some (PSeries s) → k ∈ sortable_kinds →
  ∃ kind stacked left,
    (figure w ++ [CmdPlot kind stacked left (plotted_colors k color)
                          (plotted_content k s) kw])
    `prefix_of`
    figure ((d ← deref data;
             dispatch autoscale k data d hl color strfmt orient kw;;
             draw (finish k orient)) w).2.
Proof.
  intros Hd Hk. rewrite (bind_ok _ _ _ _ _ (deref_run _ _ _ Hd)).
  unfold sortable_kinds in Hk.
  apply elem_of_cons in Hk as [->|Hk]; [|apply elem_of_cons in Hk as [->|Hk]];
    [| |apply list_elem_of_singleton in Hk as ->];
    do 3 eexists; (apply bind_figure_grows;
      [|intros; apply draw_figure_grows, dgrows_finish]); unfold dispatch; simpl.
  - apply draw_emit_grows, dgrows_plot_values_above_bar.
  - apply bind_figure_grows.
    + rewrite (plot_waterfall_series_run _ _ _ _ _ _ Hd). simpl. done.
    + intros [r blank] w'. apply label_waterfall_figure_grows.
  - apply bind_figure_grows.
    + rewrite (plot_waterfall_series_run _ _ _ _ _ _ Hd). simpl. done.
    + intros [r blank] w'. apply label_waterfall_figure_grows.
Qed.

Lemma first_plot_prefix c fig content color :
  plot_of c = Some (content, color) → [c] `prefix_of` fig →
  first_plot fig = Some (content, color).
Proof. intros Hc [rest ->]. unfold first_plot. simpl. by rewrite Hc. Qed.

(** For a Series and a sortable kind the plot shows the Series sorted as
    asked, in the colours assigned before the sort. *)
Lemma micompanyify_series_plot autoscale env s hl k ascending strfmt kw color :
  k ∈ sortable_kinds → length (s_rows s) ≠ 1%nat →
  define_colors hl (PSeries s) k = Ok color →
  series_plot autoscale env s hl k ascending strfmt kw
  = Some (plotted_content k (sorted_as env ascending s), plotted_colors k color).
Proof.
  intros Hk Hlen Hc. unfold series_plot, micompanyify, fresh_world.
  set (w0 := mkWorld [PSeries s] []).
  assert (heap w0 !! 0%nat = Some (PSeries s)) as H0 by done.
  rewrite (bind_ok _ _ _ _ _ (deref_run _ _ _ H0)). simpl.
  rewrite ret_bind. rewrite (squeeze_ref_bind _ _ _ _ _ H0).
  rewrite squeeze_series_None by done.
  pose proof (squeeze_target_lookup env 0%nat (heap w0) (PSeries s) H0) as H1.
  set (data := squeeze_target env 0%nat (heap w0)) in *.
  set (w1 := mkWorld (heap w0 ++ squeeze_copy env (PSeries s)) (figure w0)) in *.
  change (heap w1 !! data = Some (PSeries s)) in H1.
  unfold render.
  rewrite (bind_ok _ _ _ _ _ (deref_run _ _ _ H1)).
  rewrite ret_bind. rewrite lift_bind, Hc.
  assert (bool_decide (k ∈ unsorted_kinds) = false) as ->.
  { unfold sortable_kinds in Hk.
    apply elem_of_cons in Hk as [->|Hk]; [|apply elem_of_cons in Hk as [->|Hk]];
      [| |apply list_elem_of_singleton in Hk as ->]; reflexivity. }
  cbn [orb negb is_series sorted_as].
  destruct ascending as [a|].
  - rewrite (bind_ok _ _ _ _ _ (sort_values_ref_run _ _ _ _ a H1)).
    set (w2 := mkWorld (heap w1 ++ [PSeries (sort_values env s a)]) (figure w1)).
    assert (heap w2 !! length (heap w1) = Some (PSeries (sort_values env s a))) as H2
      by apply lookup_snoc_length.
    edestruct (tail_series_plot autoscale k (length (heap w1)) (sort_values env s a) hl color)
      as (kd & st & lf & Hp);
      [exact H2|exact Hk|eapply first_plot_prefix; [|exact Hp]]; done.
  - rewrite ret_bind.
    edestruct (tail_series_plot autoscale k data s hl color) as (kd & st & lf & Hp);
      [exact H1|exact Hk|eapply first_plot_prefix; [|exact Hp]]; done.
Qed.

(** C1, amended.  For a series of distinct values drawn with a sortable
    kind, the descending order of the categories is the reverse of the
    ascending order; the colours are assigned before the sort and are handed
    to the plot as they are, in either direction: a highlight stays at its
    position, it does not follow its category. *)
Theorem sorting_keeps_colors_in_place autoscale env s hl k strfmt kw color :
  k ∈ sortable_kinds → length (s_rows s) ≠ 1%nat → NoDup (s_values s) →
  define_colors hl (PSeries s) k = Ok color →
  s_rows (sort_values env s false) = reverse (s_rows (sort_values env s true))
  ∧ series_plot autoscale env s hl k (Some true) strfmt kw
    = Some (plotted_content k (sort_values env s true), plotted_colors k color)
  ∧ series_plot autoscale env s hl k (Some false) strfmt kw
    = Some (plotted_content k (sort_values env s false), plotted_colors k color).
Proof.
  intros Hk Hlen Hnd Hc. split; [by apply sort_values_descending_reverse|].
  split; by apply micompanyify_series_plot.
Qed.

Lemma sorting_keeps_colors_in_place_witness :
  s_rows (sort_values pandas_3 series_3_1_2 false) = reverse (s_rows (sort_values pandas_3 series_3_1_2 true))
  ∧ series_plot limits_0_100 pandas_3 series_3_1_2 (HInt 0) "bar" (Some true) None []
    = Some (PSeries (sort_values pandas_3 series_3_1_2 true), ["purple"; "lightgray"; "lightgray"])
  ∧ series_plot limits_0_100 pandas_3 series_3_1_2 (HInt 0) "bar" (Some false) None []
    = Some (PSeries (sort_values pandas_3 series_3_1_2 false), ["purple"; "lightgray"; "lightgray"]).
Proof.
  apply (sorting_keeps_colors_in_place limits_0_100 pandas_3 series_3_1_2 (HInt 0) "bar" None []
           ["purple"; "lightgray"; "lightgray"]).
  - solve_elem.
  - simpl. lia.
  - apply (bool_decide_unpack _). vm_compute. exact I.
  - reflexivity.
Defined.

(** C1 as stated fails: in the series a:3, b:1, c:2 with highlight 0 the
    category a carries the highlight before the sort; sorted ascending it is
    drawn last, in the neutral colour, and the highlight is on b. *)
Lemma sorting_moves_highlight_off_category :
  ¬ highlight_follows_category limits_0_100 pandas_3 series_3_1_2 (HInt 0) "bar" true.
Proof.
  intros H.
  specialize (H ["purple"; "lightgray"; "lightgray"]
                (sort_values pandas_3 series_3_1_2 true)
                ["purple"; "lightgray"; "lightgray"] eq_refl).
  assert (series_plot limits_0_100 pandas_3 series_3_1_2 (HInt 0) "bar" (Some true) None []
          = Some (PSeries (sort_values pandas_3 series_3_1_2 true),
                  ["purple"; "lightgray"; "lightgray"])) as Hp.
  { apply (bool_decide_unpack _). vm_compute. exact I. }
  specialize (H Hp 0%nat 2%nat (LStr "a", qc 3 1) eq_refl).
  assert (s_rows (sort_values pandas_3 series_3_1_2 true) !! 2%nat = Some (LStr "a", qc 3 1)) as Hr.
  { apply (bool_decide_unpack _). vm_compute. exact I. }
  specialize (H Hr). discriminate H.
Qed.

(** * Further properties *)

(** ** Further properties of the label overlay *)

(** X1.  [plot_values_above_bar] raises ValueError and draws nothing when
    exactly one of [bar_nr] and [nr_bars] is given, and when [orient] is
    neither "v" nor "h". *)
Theorem plot_values_above_bar_usage_errors autoscale data dv strfmt orient textcolor
    bar_nr nr_bars fig :
  ¬ (is_Some bar_nr ↔ is_Some nr_bars) ∨ (orient ≠ "v" ∧ orient ≠ "h") →
  plot_values_above_bar autoscale data dv strfmt orient textcolor bar_nr nr_bars fig
  = (Raise ValueError, fig).
Proof.
  intros H. unfold plot_values_above_bar.
  unfold mbind at 1, Draw_bind at 1, dbind at 1.
  case_bool_decide as Hb; [|done].
  destruct H as [H|[Hv Hh]]; [done|].
  unfold dret at 1. unfold mbind at 1, Draw_bind at 1, dbind at 1.
  by rewrite !decide_False by done.
Qed.

Lemma plot_values_above_bar_usage_errors_witness :
  plot_values_above_bar limits_0_100 (PSeries series_40) None ".2f" "v" "black"
                        (Some 0%nat) None []
  = (Raise ValueError, []).
Proof.
  apply (plot_values_above_bar_usage_errors limits_0_100 (PSeries series_40) None ".2f" "v"
           "black" (Some 0%nat) None []).
  left. intros [H _]. destruct H as [x Hx]; [by eexists|discriminate Hx].
Defined.

Lemma dadds_bind {A B} P (m : Draw A) (f : A → Draw B) :
  dadds P m → (∀ a, dadds P (f a)) → dadds P (m ≫= f).
Proof.
  intros Hm Hf fig. unfold mbind, Draw_bind, dbind.
  destruct (Hm fig) as (a1 & E1 & H1). destruct (m fig) as [[a|e] fig']; simpl in *.
  - destruct (Hf a fig') as (a2 & E2 & H2). exists (a1 ++ a2). rewrite E2, E1.
    split; [by rewrite app_assoc|by apply Forall_app].
  - eauto.
Qed.

Lemma dadds_nothing {A} P (m : Draw A) : (∀ fig, (m fig).2 = fig) → dadds P m.
Proof. intros H fig. exists []. by rewrite H, app_nil_r. Qed.

Lemma dadds_emit (P : draw_cmd → Prop) c : P c → dadds P (emit c).
Proof. intros H fig. exists [c]. split; [done|by constructor]. Qed.

Lemma dadds_label_loop plotsize strfmt orient textcolor va ha bar_nr nr_bars items :
  ∀ i, dadds is_text (label_loop plotsize strfmt orient textcolor va ha bar_nr nr_bars i items).
Proof.
  induction items as [|[v dv] items IH]; intros i; simpl; [by apply dadds_nothing|].
  apply dadds_bind; [by apply dadds_nothing|intros ?].
  apply dadds_bind; [by apply dadds_nothing|intros ?].
  apply dadds_bind; [by apply dadds_emit|intros ?]. apply IH.
Qed.

(** X2.  Whatever its arguments, and whether it returns or raises,
    [plot_values_above_bar] leaves what was drawn before in place and adds
    text labels only. *)
Theorem plot_values_above_bar_adds_text_only autoscale data dv strfmt orient textcolor
    bar_nr nr_bars :
  dadds is_text
    (plot_values_above_bar autoscale data dv strfmt orient textcolor bar_nr nr_bars).
Proof.
  unfold plot_values_above_bar, get_xlim, get_ylim.
  apply dadds_bind; [case_bool_decide; by apply dadds_nothing|intros _].
  apply dadds_bind.
  { repeat case_decide; by apply dadds_nothing. }
  intros [[[? ?] ?] ?].
  apply dadds_bind; [by apply dadds_nothing|intros ?].
  apply dadds_bind; [by apply dadds_nothing|intros ?].
  apply dadds_label_loop.
Qed.

(** ** Further properties of the waterfall *)

Lemma Qc_sum_app l k : Qc_sum (l ++ k) = Qc_sum l + Qc_sum k.
Proof.
  induction l as [|y l IH]; simpl.
  - ring.
  - rewrite IH. ring.
Qed.

Lemma Qc_sum_take_S l i v :
  l !! i = Some v → Qc_sum (take (S i) l) = Qc_sum (take i l) + v.
Proof.
  intros H. rewrite (take_S_r _ _ _ H), Qc_sum_app. simpl. ring.
Qed.

(** X3.  The bars of a waterfall chain: the first offset is 0, the bar in
    position [i] ends, at offset plus value, where the next bar starts, and
    the last bar ends at the sum of all values, the height of the 'total'
    bar. *)
Theorem running_offsets_chain l i v :
  l !! i = Some v →
  ∃ o, running_offsets l !! i = Some o
       ∧ (i = 0%nat → o = 0)
       ∧ (∀ v', l !! S i = Some v' → running_offsets l !! S i = Some (o + v))
       ∧ (S i = length l → o + v = Qc_sum l).
Proof.
  intros Hi. pose proof (lookup_lt_Some _ _ _ Hi) as Hlt.
  exists (Qc_sum (take i l)). split; [by apply running_offsets_lookup|].
  split; [by intros ->|]. split.
  - intros v' Hs. rewrite running_offsets_lookup by (by eapply lookup_lt_Some).
    by rewrite (Qc_sum_take_S _ _ _ Hi).
  - intros Hl. rewrite <-(Qc_sum_take_S _ _ _ Hi), Hl. by rewrite firstn_all.
Qed.

Lemma running_offsets_chain_witness :
  ∃ o, running_offsets [qc 10 1; qc (-3) 1; qc 5 1] !! 1%nat = Some o
       ∧ (1%nat = 0%nat → o = 0)
       ∧ (∀ v', [qc 10 1; qc (-3) 1; qc 5 1] !! 2%nat = Some v' →
                running_offsets [qc 10 1; qc (-3) 1; qc 5 1] !! 2%nat = Some (o + qc (-3) 1))
       ∧ (2%nat = length [qc 10 1; qc (-3) 1; qc 5 1] → o + qc (-3) 1 = Qc_sum [qc 10 1; qc (-3) 1; qc 5 1]).
Proof.
  apply (running_offsets_chain [qc 10 1; qc (-3) 1; qc 5 1] 1%nat (qc (-3) 1)). reflexivity.
Defined.

(** X4.  [plot_waterfall] works on the object it is given: afterwards that
    object holds the table with the 'total' row, no other object has
    changed, a build-down returns the very reference it was called with,
    and a build-up returns a new object, the reversed table. *)
Theorem plot_waterfall_writes_argument w (data : ref) s color buildup kw :
  heap w !! data = Some (PSeries s) →
  let out := plot_waterfall data color buildup kw w in
  heap out.2 !! data = Some (PSeries (waterfall_table s))
  ∧ unchanged_except data (heap w) out.2
  ∧ ∃ blank, out.1 = Ok (if buildup then length (heap w) else data, blank)
  ∧ (buildup = true →
     heap out.2 !! length (heap w) = Some (PSeries (reversed_series (waterfall_table s)))).
Proof.
  intros Hd out. subst out. rewrite (plot_waterfall_series_run _ _ _ _ _ _ Hd).
  assert (data < length (heap w))%nat as Hlt by (by eapply lookup_lt_Some).
  destruct buildup; simpl.
  - split; [|split; [split|]].
    + rewrite lookup_app_l by (by rewrite length_insert).
      by apply list_lookup_insert_eq.
    + cbn [heap]. rewrite length_app, length_insert. lia.
    + intros r' d Hne Hr. cbn [heap]. apply lookup_app_l_Some. by rewrite list_lookup_insert_ne.
    + eexists. split; [done|]. intros _.
      rewrite <-(length_insert (heap w) data (PSeries (waterfall_table s))).
      apply lookup_snoc_length.
  - split; [|split; [split|]].
    + by apply list_lookup_insert_eq.
    + cbn [heap]. by rewrite length_insert.
    + intros r' d Hne Hr. cbn [heap]. by rewrite list_lookup_insert_ne.
    + eexists. split; [done|]. done.
Qed.

Lemma plot_waterfall_writes_argument_witness :
  let w := fresh_world (PSeries series_10_m3_5) in
  let out := plot_waterfall 0%nat None true [] w in
  heap out.2 !! 0%nat = Some (PSeries (waterfall_table series_10_m3_5))
  ∧ unchanged_except 0%nat (heap w) out.2
  ∧ ∃ blank, out.1 = Ok (if true then length (heap w) else 0%nat, blank)
  ∧ (true = true →
     heap out.2 !! length (heap w)
     = Some (PSeries (reversed_series (waterfall_table series_10_m3_5)))).
Proof.
  apply (plot_waterfall_writes_argument (fresh_world (PSeries series_10_m3_5)) 0%nat
           series_10_m3_5 None true []).
  reflexivity.
Defined.

Lemma waterfall_table_again s :
  TOTAL ∉ s_labels s →
  s_rows (waterfall_table (waterfall_table s))
  = s_rows s ++ [(TOTAL, Qc_sum (s_values s) + Qc_sum (s_values s))].
Proof.
  intros Ht. rewrite (waterfall_table_fresh s Ht).
  unfold waterfall_table, loc_set_rows, s_values, s_labels. simpl.
  rewrite decide_True by (rewrite fmap_app; apply elem_of_app; right; apply list_elem_of_here).
  rewrite fmap_app. simpl. f_equal.
  - apply list_eq. intros i. rewrite list_lookup_fmap.
    destruct (s_rows s !! i) as [r|] eqn:Hr; simpl; [|done].
    rewrite decide_False; [done|]. intros Heq. apply Ht. rewrite <-Heq.
    apply list_elem_of_fmap_2. by eapply list_elem_of_lookup_2.
  - rewrite fmap_app, Qc_sum_app. simpl. do 2 f_equal. ring.
Qed.

(** X5.  Drawing the same Series twice with [plot_waterfall] counts the
    total twice: the second call finds the 'total' row of the first, adds it
    up with the values and overwrites it with twice the sum. *)
Theorem plot_waterfall_twice_doubles_total w (data : ref) s color kw :
  heap w !! data = Some (PSeries s) → TOTAL ∉ s_labels s →
  let w1 := (plot_waterfall data color false kw w).2 in
  let w2 := (plot_waterfall data color false kw w1).2 in
  ∃ s2, heap w2 !! data = Some (PSeries s2)
        ∧ s_rows s2 = s_rows s ++ [(TOTAL, Qc_sum (s_values s) + Qc_sum (s_values s))].
Proof.
  intros Hd Ht w1 w2. subst w1 w2.
  assert (data < length (heap w))%nat as Hlt by (by eapply lookup_lt_Some).
  rewrite (plot_waterfall_series_run _ _ _ _ _ _ Hd). simpl.
  erewrite plot_waterfall_series_run; simpl.
  2:{ by apply list_lookup_insert_eq. }
  eexists. split.
  - apply list_lookup_insert_eq. by rewrite length_insert.
  - by apply waterfall_table_again.
Qed.

Lemma plot_waterfall_twice_doubles_total_witness :
  let w := fresh_world (PSeries series_10_m3_5) in
  let w1 := (plot_waterfall 0%nat None false [] w).2 in
  let w2 := (plot_waterfall 0%nat None false [] w1).2 in
  ∃ s2, heap w2 !! 0%nat = Some (PSeries s2)
        ∧ s_rows s2 = s_rows series_10_m3_5
                      ++ [(TOTAL, Qc_sum (s_values series_10_m3_5)
                                  + Qc_sum (s_values series_10_m3_5))].
Proof.
  apply (plot_waterfall_twice_doubles_total (fresh_world (PSeries series_10_m3_5)) 0%nat
           series_10_m3_5 None []).
  - reflexivity.
  - apply (bool_decide_unpack _). vm_compute. exact I.
Defined.

(** ** Further properties of the colour assignment *)

(** X6.  A list entry below [-len(data)] is normalised twice, by the loop
    and by Python's indexing: on a Series of [n] categories the entry [h]
    with [-2n ≤ h < -n] marks position [2n + h], while the same [h] as a
    single index raises IndexError. *)
Theorem define_colors_list_below_range s plottype h :
  let n := length (s_rows s) in
  (- 2 * Z.of_nat n ≤ h < - Z.of_nat n)%Z →
  define_colors (HList [h]) (PSeries s) plottype
  = Ok (<[Z.to_nat (2 * Z.of_nat n + h) := HIGHLIGHT_COLOR]> (replicate n "lightgray"))
  ∧ define_colors (HInt h) (PSeries s) plottype = Raise IndexError.
Proof.
  intros n Hh. unfold define_colors. simpl. fold n.
  rewrite decide_True by lia.
  unfold list_setitem, py_position. rewrite length_replicate.
  rewrite !(decide_False (P:=(0 ≤ _ < _)%Z)) by lia.
  rewrite decide_True by lia. rewrite decide_False by lia. simpl.
  split; [|done]. do 2 f_equal. lia.
Qed.

Lemma define_colors_list_below_range_witness :
  define_colors (HList [-4]%Z) (PSeries series_3_1_2) "bar"
  = Ok (<[Z.to_nat (2 * Z.of_nat 3 + -4) := HIGHLIGHT_COLOR]> (replicate 3 "lightgray"))
  ∧ define_colors (HInt (-4)) (PSeries series_3_1_2) "bar" = Raise IndexError.
Proof.
  apply (define_colors_list_below_range series_3_1_2 "bar" (-4)%Z). simpl. lia.
Defined.

(** X7.  The order of the indices in a highlight list does not matter, and
    neither do repetitions of an index: two lists with the same entries give
    the same colours, or raise alike. *)
Theorem define_colors_list_order_irrelevant hs hs' data plottype :
  (∀ h, h ∈ hs ↔ h ∈ hs') →
  define_colors (HList hs) data plottype = define_colors (HList hs') data plottype.
Proof.
  intros Hp. unfold define_colors.
  match goal with |- context [mbind _ ?c] => destruct c as [color|e] eqn:Ec end; [|done].
  simpl. destruct (py_len data) as [n|e]; [|done]. simpl.
  assert (∀ r, r ∈ (λ h, py_position (length color) (normalised n h)) <$> hs
             ↔ r ∈ (λ h, py_position (length color) (normalised n h)) <$> hs') as Hm.
  { intros r. rewrite !list_elem_of_fmap.
    split; intros (h & -> & Hin); exists h; (split; [done|by apply Hp]). }
  destruct (highlight_loop _ hs color) as [c|e] eqn:E,
           (highlight_loop _ hs' color) as [c'|e'] eqn:E'.
  - f_equal. apply highlight_loop_ok in E as [_ E], E' as [_ E'].
    apply list_eq. intros i. rewrite E, E'.
    by rewrite (bool_decide_ext _ _ (Hm (Ok i))).
  - apply highlight_loop_raise, Hm, list_elem_of_fmap in E' as (h & Hr & Hin).
    destruct (highlight_loop_all_ok _ _ _ _ E h Hin) as [p Hok]. congruence.
  - apply highlight_loop_raise, Hm, list_elem_of_fmap in E as (h & Hr & Hin).
    destruct (highlight_loop_all_ok _ _ _ _ E' h Hin) as [p Hok]. congruence.
  - f_equal.
    apply highlight_loop_raise, list_elem_of_fmap in E as (h & Hr & _).
    apply highlight_loop_raise, list_elem_of_fmap in E' as (h' & Hr' & _).
    symmetry in Hr, Hr'. apply py_position_raise in Hr, Hr'. congruence.
Qed.

Lemma define_colors_list_order_irrelevant_witness :
  define_colors (HList [0; -1; 0]%Z) (PSeries series_3_1_2) "bar"
  = define_colors (HList [-1; 0]%Z) (PSeries series_3_1_2) "bar".
Proof.
  apply (define_colors_list_order_irrelevant [0; -1; 0]%Z [-1; 0]%Z (PSeries series_3_1_2) "bar").
  intros h. rewrite !elem_of_cons, !elem_of_nil. tauto.
Defined.

(** ** Further properties of the chart-type selection *)

(** X9.  Off a time axis the default label format goes with the kind that
    is picked: percentages (".1%") for waterfall and composition_comparison,
    two decimals (".2f") for bar and scatter. *)
Theorem default_strfmt_matches_kind env (t : table) k :
  time_axis t = false → pick_plottype env (pdata_of t) = Ok k →
  default_strfmt env (pdata_of t)
  = if bool_decide (k ∈ ["waterfall"; "composition_comparison"]) then ".1%" else ".2f".
Proof.
  unfold pick_plottype, default_strfmt.
  destruct t as [s|d]; simpl; intros ->; simpl.
  - destruct (is_percentage_series _); by intros [= <-].
  - destruct (all_columns_percentage _); by intros [= <-].
Qed.

Lemma default_strfmt_matches_kind_witness :
  default_strfmt pandas_3 (PSeries series_quarters) = ".1%".
Proof.
  apply (default_strfmt_matches_kind pandas_3 (SingleSeries series_quarters) "waterfall");
    [reflexivity|vm_compute; reflexivity].
Defined.

(** ** Further properties of [micompanyify] *)

(** The orientation and the label format [render] works with. *)
Lemma render_run_unsorted autoscale env (data : ref) hl k ascending strfmt kw w d color :
  heap w !! data = Some d → define_colors hl d k = Ok color →
  k ∈ unsorted_kinds ∨ is_series d = false ∨ ascending = None →
  render autoscale env data hl (Some k) ascending strfmt kw w
  = (dispatch autoscale k data d hl color (default (default_strfmt env d) strfmt)
       (if bool_decide (k ∈ ["bar_timeseries"; "line_timeseries"]) then "h" else "v") kw;;
     draw (finish k (if bool_decide (k ∈ ["bar_timeseries"; "line_timeseries"])
                     then "h" else "v"))) w.
Proof.
  intros Hd Hc Hu. unfold render.
  rewrite (bind_ok _ _ _ _ _ (deref_run _ _ _ Hd)), ret_bind, lift_bind, Hc.
  assert ((if bool_decide (k ∈ unsorted_kinds) || negb (is_series d) then None else ascending)
          = None) as ->.
  { destruct Hu as [Hu|[Hu| ->]].
    - by rewrite bool_decide_eq_true_2.
    - rewrite Hu. by rewrite orb_true_r.
    - by destruct (_ || _). }
  by rewrite ret_bind, (bind_ok _ _ _ _ _ (deref_run _ _ _ Hd)).
Qed.

Lemma micompanyify_unsqueezed autoscale env (data : ref) hl plottype ascending strfmt kw w d :
  heap w !! data = Some d → is_frame d || is_series d = true → squeeze d = None →
  micompanyify autoscale env data hl plottype ascending strfmt kw w
  = render autoscale env (squeeze_target env data (heap w)) hl plottype ascending strfmt kw
      (mkWorld (heap w ++ squeeze_copy env d) (figure w)).
Proof.
  intros Hd Ht Hs. unfold micompanyify.
  rewrite (bind_ok _ _ _ _ _ (deref_run _ _ _ Hd)), Ht, ret_bind.
  by rewrite (squeeze_ref_bind _ _ _ _ _ Hd), Hs.
Qed.

(** X10.  A Series with a single value cannot be drawn: [squeeze] turns
    it into a number, and the call raises, AttributeError when the kind is
    to be picked and TypeError when a kind is given, without drawing. *)
Theorem micompanyify_single_value_raises autoscale env (data : ref) hl plottype ascending
    strfmt kw w s r :
  heap w !! data = Some (PSeries s) → s_rows s = [r] →
  observe (micompanyify autoscale env data hl plottype ascending strfmt kw w)
  = (Raise (if plottype is None then AttributeError else TypeError), figure w).
Proof.
  intros Hd Hr. unfold micompanyify.
  rewrite (bind_ok _ _ _ _ _ (deref_run _ _ _ Hd)). simpl. rewrite ret_bind.
  rewrite (squeeze_ref_bind _ _ _ _ _ Hd). simpl. rewrite Hr. unfold render.
  erewrite bind_ok; [|apply deref_run; apply lookup_snoc_length].
  destruct plottype as [k|]; [|done].
  rewrite ret_bind, lift_bind. unfold define_colors. simpl.
  by case_bool_decide.
Qed.

Lemma micompanyify_single_value_raises_witness :
  observe (micompanyify limits_0_100 pandas_3 0%nat (HInt (-1)) None (Some true) None []
                        (fresh_world (PSeries series_40)))
  = (Raise AttributeError, []).
Proof.
  exact (micompanyify_single_value_raises limits_0_100 pandas_3 0%nat (HInt (-1)) None (Some true)
           None [] (fresh_world (PSeries series_40)) series_40 (LStr "a", qc 40 1)
           eq_refl eq_refl).
Defined.

Lemma dispatch_unsupported autoscale k (data : ref) d hl color strfmt orient kw w :
  k ∉ supported_kinds →
  dispatch autoscale k data d hl color strfmt orient kw w
  = (Raise (if decide (k = "piechart") then TypeError else NotImplementedError), w).
Proof.
  intros Hk. unfold dispatch.
  repeat (case_decide as H; [exfalso; apply Hk; rewrite H; solve_elem|clear H]).
  by case_decide.
Qed.

(** X11.  A kind without a branch ("piechart" or anything unknown) never
    draws: the call raises with the figure as it was; once the colours are
    assigned the error is TypeError for "piechart" and NotImplementedError
    otherwise. *)
Theorem micompanyify_unsupported_kind autoscale env (data : ref) hl k ascending strfmt kw w :
  k ∉ supported_kinds →
  ∃ e, observe (micompanyify autoscale env data hl (Some k) ascending strfmt kw w)
       = (Raise e, figure w)
       ∧ ∀ d color, heap w !! data = Some d → is_frame d || is_series d = true →
                    define_colors hl (squeezed d) k = Ok color →
                    e = if decide (k = "piechart") then TypeError else NotImplementedError.
Proof.
  intros Hk. unfold micompanyify.
  destruct (heap w !! data) as [d|] eqn:Hd.
  2:{ eexists. split; [|intros ?? H; congruence].
      unfold mbind, M_bind, bind, deref. by rewrite Hd. }
  rewrite (bind_ok _ _ _ _ _ (deref_run _ _ _ Hd)).
  destruct (is_frame d || is_series d) eqn:Ht.
  2:{ eexists. split; [done|]. intros ?? [= <-] Ht'. congruence. }
  rewrite ret_bind, (squeeze_ref_bind _ _ _ _ _ Hd).
  assert (∀ (data' : ref) w' d', heap w' !! data' = Some d' → figure w' = figure w →
    ∃ e, observe (render autoscale env data' hl (Some k) ascending strfmt kw w') = (Raise e, figure w)
         ∧ ∀ color, define_colors hl d' k = Ok color →
                    e = if decide (k = "piechart") then TypeError else NotImplementedError)
    as Hrender.
  { intros data' w' d' Hd' Hfig. unfold render.
    rewrite (bind_ok _ _ _ _ _ (deref_run _ _ _ Hd')), ret_bind, lift_bind.
    destruct (define_colors hl d' k) as [color|e].
    2:{ eexists. split; [unfold observe; simpl; by rewrite Hfig|done]. }
    destruct (if bool_decide (k ∈ unsorted_kinds) || negb (is_series d') then None else ascending)
      as [a|] eqn:Ha.
    - destruct d' as [q|s|f]; try (by destruct (bool_decide _)).
      rewrite (bind_ok _ _ _ _ _ (sort_values_ref_run _ _ _ _ a Hd')).
      erewrite bind_ok; [|apply deref_run; apply lookup_snoc_length].
      erewrite bind_raise; [|by apply dispatch_unsupported].
      eexists. split; [unfold observe; simpl; by rewrite Hfig|done].
    - rewrite ret_bind, (bind_ok _ _ _ _ _ (deref_run _ _ _ Hd')).
      erewrite bind_raise; [|by apply dispatch_unsupported].
      eexists. split; [unfold observe; simpl; by rewrite Hfig|done]. }
  unfold squeezed.
  destruct (squeeze d) as [d'|] eqn:Hs; simpl.
  - destruct (Hrender (length (heap w)) (mkWorld (heap w ++ [d']) (figure w)) d')
      as (e & He & Hc); [apply lookup_snoc_length|done|].
    exists e. split; [done|]. intros d0 color [= <-] _. rewrite Hs. apply Hc.
  - destruct (Hrender _ (mkWorld (heap w ++ squeeze_copy env d) (figure w)) d
                (squeeze_target_lookup env _ _ _ Hd) eq_refl) as (e & He & Hc).
    exists e. split; [done|]. intros d0 color [= <-] _. rewrite Hs. apply Hc.
Qed.

Lemma micompanyify_unsupported_kind_witness :
  ∃ e, observe (micompanyify limits_0_100 pandas_3 0%nat (HInt (-1)) (Some "piechart") (Some true)
                             None [] (fresh_world (PSeries series_3_1_2)))
       = (Raise e, [])
       ∧ ∀ d color, [PSeries series_3_1_2] !! 0%nat = Some d →
                    is_frame d || is_series d = true →
                    define_colors (HInt (-1)) (squeezed d) "piechart" = Ok color →
                    e = TypeError.
Proof.
  apply (micompanyify_unsupported_kind limits_0_100 pandas_3 0%nat (HInt (-1)) "piechart" (Some true)
           None [] (fresh_world (PSeries series_3_1_2))).
  apply (bool_decide_unpack _). vm_compute. exact I.
Defined.

(** ** Sorting, scatter and composition *)

Lemma render_ascending_ignored autoscale env (data : ref) hl plottype ascending strfmt kw w d :
  heap w !! data = Some d →
  (∀ k, chosen_kind env d plottype = Ok k → k ∈ unsorted_kinds ∨ is_series d = false) →
  render autoscale env data hl plottype ascending strfmt kw w
  = render autoscale env data hl plottype None strfmt kw w.
Proof.
  intros Hd Hk. unfold render.
  rewrite !(bind_ok _ _ _ _ _ (deref_run _ _ _ Hd)).
  assert (∃ rk : result string,
            (match plottype with Some p => ret p | None => lift (pick_plottype env d) end
             : M string) = lift rk ∧ chosen_kind env d plottype = rk) as (rk & -> & Hck).
  { destruct plottype as [p|]; eauto. }
  rewrite !lift_bind. destruct rk as [k|e]; [|done].
  rewrite !lift_bind. destruct (define_colors hl d k) as [color|e]; [|done].
  destruct (Hk k Hck) as [Hu|Hu].
  - by rewrite (bool_decide_eq_true_2 (k ∈ unsorted_kinds)).
  - by rewrite Hu, orb_true_r.
Qed.

(** X12.  The sort order asked for has no effect on a table, nor on a
    Series drawn as scatter, composition_comparison, bar_timeseries,
    line_timeseries or piechart: the call behaves as with [ascending=None]. *)
Theorem micompanyify_ascending_ignored autoscale env (data : ref) hl plottype ascending
    strfmt kw w :
  (∀ d k, heap w !! data = Some d → chosen_kind env (squeezed d) plottype = Ok k →
          k ∈ unsorted_kinds ∨ is_series (squeezed d) = false) →
  micompanyify autoscale env data hl plottype ascending strfmt kw w
  = micompanyify autoscale env data hl plottype None strfmt kw w.
Proof.
  intros Hk. unfold micompanyify.
  destruct (heap w !! data) as [d|] eqn:Hd.
  2:{ unfold mbind, M_bind, bind, deref. by rewrite Hd. }
  rewrite !(bind_ok _ _ _ _ _ (deref_run _ _ _ Hd)).
  destruct (is_frame d || is_series d); [|done].
  rewrite !ret_bind, !(squeeze_ref_bind _ _ _ _ _ Hd).
  specialize (Hk d). unfold squeezed in Hk.
  destruct (squeeze d) as [d'|]; simpl in Hk.
  - eapply render_ascending_ignored; [apply lookup_snoc_length|]. intros k Hc. by apply Hk.
  - eapply render_ascending_ignored; [by apply squeeze_target_lookup|].
    intros k Hc. by apply Hk.
Qed.

Lemma micompanyify_ascending_ignored_witness :
  micompanyify limits_0_100 pandas_3 0%nat (HInt (-1)) None (Some true) None []
               (fresh_world (PSeries series_time))
  = micompanyify limits_0_100 pandas_3 0%nat (HInt (-1)) None None None []
                 (fresh_world (PSeries series_time)).
Proof.
  apply (micompanyify_ascending_ignored limits_0_100 pandas_3 0%nat (HInt (-1)) None (Some true) None []
           (fresh_world (PSeries series_time))).
  intros d k [= <-] [= <-]. left. solve_elem.
Defined.

(** X13.  composition_comparison with a list of highlights raises
    TypeError only after the stacked bars are drawn: the plot stays on the
    figure, without labels. *)
Theorem micompanyify_composition_list_highlight autoscale env (data : ref) hs ascending
    strfmt kw w d color :
  heap w !! data = Some (PFrame d) → squeeze (PFrame d) = None →
  define_colors (HList hs) (PFrame d) "composition_comparison" = Ok color →
  micompanyify autoscale env data (HList hs) (Some "composition_comparison") ascending strfmt kw w
  = (Raise TypeError,
     mkWorld (heap w ++ squeeze_copy env (PFrame d))
             (figure w ++ [CmdPlot (Some "barh") true None color
                                   (pd_transpose (PFrame d)) kw])).
Proof.
  intros Hd Hs Hc.
  rewrite (micompanyify_unsqueezed _ _ _ _ _ _ _ _ _ _ Hd eq_refl Hs).
  rewrite (render_run_unsorted _ _ _ _ _ _ _ _ _ _ _ (squeezed_world_lookup env _ _ _ Hd) Hc)
    by (left; solve_elem).
  unfold dispatch. simpl. done.
Qed.

Lemma micompanyify_composition_list_highlight_witness :
  micompanyify limits_0_100 pandas_3 0%nat (HList [0]%Z) (Some "composition_comparison") None None []
               (fresh_world (PFrame table_2x3))
  = (Raise TypeError,
     mkWorld ([PFrame table_2x3] ++ [PFrame table_2x3])
             ([] ++ [CmdPlot (Some "barh") true None ["purple"; "lightgray"; "lightgray"]
                             (pd_transpose (PFrame table_2x3)) []])).
Proof.
  apply (micompanyify_composition_list_highlight limits_0_100 pandas_3 0%nat [0]%Z None None []
           (fresh_world (PFrame table_2x3)) table_2x3); reflexivity.
Defined.

(** X14.  A scatter plot takes x, y and, when there is a third column, the
    size from the first columns of the table; with two columns the size is
    left out.  The points are grey whatever the highlight, no labels are
    drawn and no ticks removed. *)
Theorem micompanyify_scatter autoscale env (data : ref) hl ascending strfmt kw w d color cx cy rest :
  heap w !! data = Some (PFrame d) → squeeze (PFrame d) = None →
  df_columns d = cx :: cy :: rest →
  define_colors hl (PFrame d) "scatter" = Ok color →
  micompanyify autoscale env data hl (Some "scatter") ascending strfmt kw w
  = (Ok (),
     mkWorld (heap w ++ squeeze_copy env (PFrame d))
             (figure w ++ [CmdScatter (column_series d cx) (column_series d cy)
                                      (column_series d <$> head rest) "grey" kw;
                           CmdBox false])).
Proof.
  intros Hd Hs Hcols Hc.
  rewrite (micompanyify_unsqueezed _ _ _ _ _ _ _ _ _ _ Hd eq_refl Hs).
  rewrite (render_run_unsorted _ _ _ _ _ _ _ _ _ _ _ (squeezed_world_lookup env _ _ _ Hd) Hc)
    by (left; solve_elem).
  unfold dispatch, draw_scatter, iloc_column, py_position, ncols. simpl. rewrite Hcols. simpl.
  destruct rest as [|cz rest]; simpl;
    repeat (first [rewrite decide_True by (simpl; lia) | rewrite decide_False by (simpl; lia)];
            simpl);
    unfold_M; unfold mbind, Draw_bind, dbind, dlift, dret, emit, finish; simpl;
    by rewrite <-app_assoc.
Qed.

Lemma micompanyify_scatter_witness :
  micompanyify limits_0_100 pandas_3 0%nat (HInt (-1)) (Some "scatter") (Some true) None []
               (fresh_world (PFrame table_3x2))
  = (Ok (),
     mkWorld ([PFrame table_3x2] ++ [PFrame table_3x2])
       ([] ++ [CmdScatter (column_series table_3x2 (LStr "x", [qc 1 1; qc 2 1; qc 3 1]))
                          (column_series table_3x2 (LStr "y", [qc 4 1; qc 5 1; qc 6 1]))
                          (column_series table_3x2 <$> head []) "grey" [];
               CmdBox false])).
Proof.
  apply (micompanyify_scatter limits_0_100 pandas_3 0%nat (HInt (-1)) (Some true) None []
           (fresh_world (PFrame table_3x2)) table_3x2
           ["lightgray"; "lightgray"; "purple"]); reflexivity.
Defined.

(** ** What a call leaves alone *)

Lemma keeps_refl r w : keeps r w w.
Proof. by repeat split. Qed.

Lemma keeps_trans r r2 w w1 w2 :
  keeps r w w1 → r2 = r ∨ (length (heap w) ≤ r2)%nat → keeps r2 w1 w2 → keeps r w w2.
Proof.
  intros [Hf1 [Hl1 Hh1]] Hr [Hf2 [Hl2 Hh2]]. split; [by etrans|]. split; [lia|].
  intros r' d Hne Hd. apply Hh2; [|by apply Hh1].
  destruct Hr as [->|Hr]; [done|]. apply lookup_lt_Some in Hd. lia.
Qed.

Lemma keeps_alloc r w d : keeps r w (mkWorld (heap w ++ [d]) (figure w)).
Proof.
  split; [done|]. split; simpl; [rewrite length_app; lia|].
  intros r' d' _ Hd. by apply lookup_app_l_Some.
Qed.

Lemma confined_bind {A B} r (m : M A) (f : A → M B) :
  confined r m → (∀ a, confined r (f a)) → confined r (m ≫= f).
Proof.
  intros Hm Hf w. specialize (Hm w). unfold mbind, M_bind, bind.
  destruct (m w) as [[a|e] w']; [|done].
  eapply keeps_trans; [exact Hm|by left|apply Hf].
Qed.

Lemma confined_ret {A} r (a : A) : confined r (ret a).
Proof. intros w. apply keeps_refl. Qed.

Lemma confined_raise {A} r e : confined r (raise e : M A).
Proof. intros w. apply keeps_refl. Qed.

Lemma confined_lift {A} r (x : result A) : confined r (lift x).
Proof. intros w. apply keeps_refl. Qed.

Lemma confined_deref r r' : confined r (deref r').
Proof. intros w. unfold deref. destruct (heap w !! r'); apply keeps_refl. Qed.

Lemma confined_alloc r d : confined r (alloc d).
Proof. intros w. apply keeps_alloc. Qed.

Lemma confined_store r d : confined r (store r d).
Proof.
  intros w. split; [done|]. split; simpl; [by rewrite length_insert|].
  intros r' d' Hne Hd. by rewrite list_lookup_insert_ne.
Qed.

Lemma confined_draw {A} r (m : Draw A) : dgrows m → confined r (draw m).
Proof.
  intros Hm w. split; [by apply draw_figure_grows|]. unfold unchanged_except.
  rewrite draw_heap. by split.
Qed.

Create HintDb confined.
#[local] Hint Resolve confined_ret confined_raise confined_lift confined_deref confined_alloc
  confined_store dgrows_plot_values_above_bar dgrows_finish : confined.
#[local] Hint Resolve dgrows_bind dgrows_dret dgrows_draise dgrows_dlift dgrows_emit
  dgrows_drawn : confined.

Ltac confined_walk :=
  repeat lazymatch goal with
         | |- confined _ (mbind _ _) => apply confined_bind; [|intros ?]
         | |- confined _ (draw _) => apply confined_draw
         | |- dgrows (mbind _ _) => apply dgrows_bind; [|intros ?]
         | |- confined _ (match ?x with _ => _ end) => destruct x
         | |- dgrows (match ?x with _ => _ end) => destruct x
         | |- _ => solve [auto with confined]
         end.

Lemma confined_plot_waterfall data color buildup kw :
  confined data (plot_waterfall data color buildup kw).
Proof. unfold plot_waterfall, loc_set_ref. confined_walk. Qed.

Lemma confined_label_waterfall autoscale r data blank strfmt orient :
  confined r (label_waterfall autoscale data blank strfmt orient).
Proof. unfold label_waterfall. confined_walk. Qed.

Lemma dgrows_label_columns autoscale d strfmt orient i cols :
  dgrows (label_columns autoscale d strfmt orient i cols).
Proof.
  revert i. induction cols as [|c cols IH]; intros i; simpl; [auto with confined|].
  apply dgrows_bind; [auto with confined|intros _; apply IH].
Qed.

Lemma dgrows_label_bars autoscale d strfmt orient :
  dgrows (label_bars autoscale d strfmt orient).
Proof. destruct d; simpl; auto using dgrows_label_columns with confined. Qed.

Lemma dgrows_draw_scatter d kw : dgrows (draw_scatter d kw).
Proof. unfold draw_scatter. confined_walk. Qed.

Lemma dgrows_draw_composition_comparison autoscale d hl color strfmt orient kw :
  dgrows (draw_composition_comparison autoscale d hl color strfmt orient kw).
Proof. unfold draw_composition_comparison. confined_walk. Qed.

#[local] Hint Resolve confined_plot_waterfall confined_label_waterfall dgrows_label_bars
  dgrows_draw_scatter dgrows_draw_composition_comparison : confined.

Lemma confined_dispatch autoscale plottype data d hl color strfmt orient kw :
  confined data (dispatch autoscale plottype data d hl color strfmt orient kw).
Proof.
  unfold dispatch. repeat case_decide; try done; confined_walk.
Qed.

Lemma confined_tail autoscale k data hl color strfmt orient kw :
  confined data (d ← deref data;
                 dispatch autoscale k data d hl color strfmt orient kw;;
                 draw (finish k orient)).
Proof.
  apply confined_bind; [auto with confined|intros d].
  apply confined_bind; [apply confined_dispatch|intros _].
  apply confined_draw; auto with confined.
Qed.

Lemma keeps_render autoscale env (data : ref) hl plottype ascending strfmt kw w :
  keeps data w (render autoscale env data hl plottype ascending strfmt kw w).2.
Proof.
  unfold render.
  destruct (heap w !! data) as [d|] eqn:Hd.
  2:{ unfold mbind, M_bind, bind, deref. rewrite Hd. apply keeps_refl. }
  rewrite (bind_ok _ _ _ _ _ (deref_run _ _ _ Hd)).
  assert (∃ rk : result string,
            (match plottype with Some p => ret p | None => lift (pick_plottype env d) end
             : M string) = lift rk) as (rk & ->).
  { destruct plottype as [p|]; eauto. }
  rewrite lift_bind. destruct rk as [k|e]; [|apply keeps_refl].
  rewrite lift_bind. destruct (define_colors hl d k) as [color|e]; [|apply keeps_refl].
  destruct (if bool_decide (k ∈ unsorted_kinds) || negb (is_series d) then None else ascending)
    as [a|].
  - destruct d as [q|s|f].
    + rewrite (bind_raise _ _ _ _ _ (sort_values_ref_raise _ _ _ _ a Hd eq_refl)).
      apply keeps_refl.
    + rewrite (bind_ok _ _ _ _ _ (sort_values_ref_run _ _ _ _ a Hd)).
      eapply keeps_trans; [apply keeps_alloc|right; reflexivity|apply confined_tail].
    + rewrite (bind_raise _ _ _ _ _ (sort_values_ref_raise _ _ _ _ a Hd eq_refl)).
      apply keeps_refl.
  - rewrite ret_bind. apply confined_tail.
Qed.

Lemma keeps_micompanyify autoscale env (data : ref) hl plottype ascending strfmt kw w :
  keeps data w (micompanyify autoscale env data hl plottype ascending strfmt kw w).2.
Proof.
  unfold micompanyify.
  destruct (heap w !! data) as [d|] eqn:Hd.
  2:{ unfold mbind, M_bind, bind, deref. rewrite Hd. apply keeps_refl. }
  rewrite (bind_ok _ _ _ _ _ (deref_run _ _ _ Hd)).
  destruct (is_frame d || is_series d); [|apply keeps_refl].
  rewrite ret_bind, (squeeze_ref_bind _ _ _ _ _ Hd).
  destruct (squeeze d) as [d'|].
  - eapply keeps_trans; [apply keeps_alloc|right; reflexivity|apply keeps_render].
  - unfold squeeze_target, squeeze_copy. destruct (squeeze_nothing env).
    + rewrite app_nil_r. destruct w. apply keeps_render.
    + eapply keeps_trans; [apply keeps_alloc|right; reflexivity|apply keeps_render].
Qed.


(** X16.  Whatever the arguments, and whether the call returns or raises,
    [micompanyify] changes no object that existed before the call other than
    the one it was given. *)
Theorem micompanyify_writes_argument_only autoscale env (data : ref) hl plottype ascending
    strfmt kw w :
  unchanged_except data (heap w)
    (micompanyify autoscale env data hl plottype ascending strfmt kw w).2.
Proof. apply keeps_micompanyify. Qed.

(** ** The defaults *)

Lemma define_colors_minus_one s plottype :
  (0 < length (s_rows s))%nat →
  define_colors (HInt (-1)) (PSeries s) plottype
  = Ok (replicate (length (s_rows s) - 1) "lightgray" ++ [HIGHLIGHT_COLOR]).
Proof.
  intros Hn. unfold define_colors. simpl.
  unfold list_setitem, py_position. rewrite length_replicate.
  rewrite decide_False by lia. rewrite decide_True by lia. simpl.
  replace (Z.to_nat (Z.of_nat (length (s_rows s)) + -1)) with (length (s_rows s) - 1)%nat by lia.
  by rewrite insert_last_replicate.
Qed.

Lemma sorted_last_largest rows top :
  Sorted row_le rows → last rows = Some top → ∀ r, r ∈ rows → r.2 ≤ top.2.
Proof.
  intros Hs. apply Sorted_StronglySorted in Hs.
  2:{ intros x y z. apply row_le_trans. }
  induction Hs as [|r0 rows Hs IH Hall]; intros Hl r Hr; [by apply elem_of_nil in Hr|].
  destruct rows as [|r1 rows].
  - simpl in Hl. injection Hl as <-. apply list_elem_of_singleton in Hr as ->. apply Qcle_refl.
  - assert (last (r1 :: rows) = Some top) as Hl' by done.
    apply elem_of_cons in Hr as [->|Hr]; [|by apply IH].
    rewrite Forall_forall in Hall. apply Hall.
    rewrite last_Some in Hl'. destruct Hl' as [l' ->]. apply elem_of_app. right.
    apply list_elem_of_here.
Qed.

(** X17.  With the defaults (highlight -1, ascending) a bar chart of a Series
    of two or more values, all different, is drawn sorted, and the one
    highlighted bar, the last one, is the largest value of the Series. *)
Theorem micompanyify_defaults_highlight_largest autoscale env s strfmt kw :
  (2 ≤ length (s_rows s))%nat → NoDup (s_values s) →
  series_plot autoscale env s (HInt (-1)) "bar" (Some true) strfmt kw
  = Some (PSeries (sort_values env s true),
          replicate (length (s_rows s) - 1) "lightgray" ++ [HIGHLIGHT_COLOR])
  ∧ largest_last (s_rows s) (s_rows (sort_values env s true)).
Proof.
  intros Hn Hnd. split.
  - rewrite (micompanyify_series_plot autoscale env s (HInt (-1)) "bar" (Some true) strfmt kw
               (replicate (length (s_rows s) - 1) "lightgray" ++ [HIGHLIGHT_COLOR])).
    + done.
    + solve_elem.
    + lia.
    + apply define_colors_minus_one. lia.
  - rewrite (sort_values_distinct env s true Hnd).
    assert (length (sort_rows (s_rows s)) = length (s_rows s)) as Hlen
        by (by rewrite sort_rows_perm).
    destruct (last (sort_rows (s_rows s))) as [top|] eqn:Hl.
    2:{ apply last_None in Hl. rewrite Hl in Hlen. simpl in Hlen. lia. }
    exists top. split; [done|].
    assert (top ∈ sort_rows (s_rows s)) as Hin.
    { apply last_Some in Hl as [l' ->]. apply elem_of_app. right. apply list_elem_of_here. }
    split; [by rewrite <-(sort_rows_perm (s_rows s))|].
    intros r Hr. eapply sorted_last_largest; [apply sort_rows_sorted|done|].
    by rewrite sort_rows_perm.
Qed.

Lemma micompanyify_defaults_highlight_largest_witness :
  ((2 ≤ length (s_rows series_3_1_2))%nat ∧ NoDup (s_values series_3_1_2)) ∧
  series_plot limits_0_100 pandas_3 series_3_1_2 (HInt (-1)) "bar" (Some true) None []
  = Some (PSeries (sort_values pandas_3 series_3_1_2 true),
          replicate (length (s_rows series_3_1_2) - 1) "lightgray" ++ [HIGHLIGHT_COLOR])
  ∧ largest_last (s_rows series_3_1_2) (s_rows (sort_values pandas_3 series_3_1_2 true)).
Proof.
  assert (NoDup (s_values series_3_1_2)) as Hnd
    by (apply (bool_decide_unpack _); vm_compute; exact I).
  split; [split; [simpl; lia|exact Hnd]|].
  apply (micompanyify_defaults_highlight_largest limits_0_100 pandas_3 series_3_1_2 None []);
    [simpl; lia|exact Hnd].
Defined.

(** ** Whole drawings *)

Lemma plot_values_above_bar_values autoscale fig (s : Series) strfmt orient :
  orient = "v" ∨ orient = "h" →
  plot_values_above_bar autoscale (PSeries s) None strfmt orient "black" None None fig
  = (Ok (), fig ++ value_labels (if decide (orient = "v") then (autoscale fig).1
                                  else (autoscale fig).2) orient strfmt s).
Proof.
  intros Ho. unfold plot_values_above_bar.
  rewrite bool_decide_eq_true_2 by done.
  set (lim := if decide (orient = "v") then (autoscale fig).1 else (autoscale fig).2).
  pose proof (label_loop_run lim strfmt orient "black" None
                ((λ v, (v, v)) <$> s_values s) 0 fig) as Hrun.
  assert (prod_map ANum ANum <$> ((λ v, (v, v)) <$> s_values s)
          = zip (ANum <$> s_values s) (ANum <$> s_values s)) as Hz.
  { generalize (s_values s). induction l as [|x l IH]; [done|]. cbn. f_equal. exact IH. }
  rewrite Hz in Hrun. clear Hz.
  assert (imap (λ i it, spec_label lim orient strfmt "black" None (0 + i) it.1 it.2)
               ((λ v, (v, v)) <$> s_values s)
          = value_labels lim orient strfmt s) as Hl.
  { unfold value_labels. rewrite imap_fmap. by apply imap_ext. }
  rewrite Hl in Hrun. clear Hl.
  unfold mbind, Draw_bind, dbind, dret, draise, dlift, get_xlim, get_ylim, drawn.
  subst lim. destruct Ho as [-> | ->]; simpl in *; exact Hrun.
Qed.

Lemma render_sorted_run autoscale env (data : ref) hl k a strfmt kw w s color :
  heap w !! data = Some (PSeries s) → define_colors hl (PSeries s) k = Ok color →
  k ∉ unsorted_kinds →
  render autoscale env data hl (Some k) (Some a) strfmt kw w
  = (dispatch autoscale k (length (heap w)) (PSeries (sort_values env s a)) hl color
       (default (default_strfmt env (PSeries s)) strfmt)
       (if bool_decide (k ∈ ["bar_timeseries"; "line_timeseries"]) then "h" else "v") kw;;
     draw (finish k (if bool_decide (k ∈ ["bar_timeseries"; "line_timeseries"])
                     then "h" else "v")))
      (mkWorld (heap w ++ [PSeries (sort_values env s a)]) (figure w)).
Proof.
  intros Hd Hc Hu. unfold render.
  rewrite (bind_ok _ _ _ _ _ (deref_run _ _ _ Hd)), ret_bind, lift_bind, Hc.
  rewrite (bool_decide_eq_false_2 (k ∈ unsorted_kinds)) by done. simpl.
  rewrite (bind_ok _ _ _ _ _ (sort_values_ref_run _ _ _ _ a Hd)).
  erewrite bind_ok; [done|]. apply deref_run. apply lookup_snoc_length.
Qed.

(** X18.  The whole drawing of a bar chart of a Series of two or more
    values, all different when the Series is sorted: the horizontal bars of
    the Series in the order asked for (by increasing value, by decreasing
    value, or as it is), in the assigned colours; one label per bar with its
    value, placed 2.5% of the x-range past the end of the bar; then the frame
    is turned off and the x ticks are removed. *)
Theorem micompanyify_bar_series autoscale env (data : ref) s hl ascending strfmt kw w color :
  heap w !! data = Some (PSeries s) → (2 ≤ length (s_rows s))%nat →
  NoDup (s_values s) ∨ ascending = None →
  define_colors hl (PSeries s) "bar" = Ok color →
  let s' := in_order ascending s in
  let bars := figure w ++ [CmdPlot (Some "barh") false None color (PSeries s') kw] in
  observe (micompanyify autoscale env data hl (Some "bar") ascending strfmt kw w)
  = (Ok (),
     bars ++ value_labels (autoscale bars).1 "v" (default (default_strfmt env (PSeries s)) strfmt) s'
          ++ [CmdBox false; CmdXticks []]).
Proof.
  intros Hd Hn Hnd Hc. rewrite <-(sorted_as_in_order env ascending s Hnd). intros s' bars.
  assert (length (s_rows s) ≠ 1%nat) as Hlen by lia.
  rewrite (micompanyify_unsqueezed _ _ _ _ _ _ _ _ _ _ Hd eq_refl (squeeze_series_None _ Hlen)).
  pose proof (squeezed_world_lookup env _ _ _ Hd) as Hd'.
  assert (∀ (r : ref) h,
    observe ((dispatch autoscale "bar" r (PSeries s') hl color
                (default (default_strfmt env (PSeries s)) strfmt) "v" kw;;
              draw (finish "bar" "v")) (mkWorld h (figure w)))
    = (Ok (),
       bars ++ value_labels (autoscale bars).1 "v"
                 (default (default_strfmt env (PSeries s)) strfmt) s'
            ++ [CmdBox false; CmdXticks []])) as Htail.
  { intros r h. unfold dispatch. simpl.
    unfold mbind at 1, M_bind at 1, bind at 1. unfold draw at 1.
    unfold mbind at 1, Draw_bind at 1, dbind at 1. unfold emit at 1. cbn [figure heap].
    rewrite plot_values_above_bar_values by (by left). simpl.
    unfold observe, draw, finish, mbind, Draw_bind, dbind, emit. simpl.
    subst bars. f_equal. by rewrite <-!app_assoc. }
  destruct ascending as [a|].
  - rewrite (render_sorted_run _ _ _ _ _ _ _ _ _ _ _ Hd' Hc)
      by (apply (bool_decide_unpack _); vm_compute; exact I).
    apply Htail.
  - rewrite (render_run_unsorted _ _ _ _ _ _ _ _ _ _ _ Hd' Hc) by (right; by right).
    apply Htail.
Qed.

Lemma micompanyify_bar_series_witness :
  observe (micompanyify limits_0_100 pandas_3 0%nat (HInt (-1)) (Some "bar") (Some true) None []
                        (fresh_world (PSeries series_3_1_2)))
  = (Ok (),
     ([] ++ [CmdPlot (Some "barh") false None ["lightgray"; "lightgray"; "purple"]
                     (PSeries (in_order (Some true) series_3_1_2)) []])
     ++ value_labels (0, qc 100 1) "v" ".2f" (in_order (Some true) series_3_1_2)
     ++ [CmdBox false; CmdXticks []]).
Proof.
  apply (micompanyify_bar_series limits_0_100 pandas_3 0%nat series_3_1_2 (HInt (-1)) (Some true) None []
           (fresh_world (PSeries series_3_1_2)) ["lightgray"; "lightgray"; "purple"]).
  - reflexivity.
  - simpl. lia.
  - left. apply (bool_decide_unpack _). vm_compute. exact I.
  - reflexivity.
Defined.

(** X19.  A bar_timeseries chart of a Series is never sorted: vertical
    bars in the order of the data, a label above each bar, 2.5% of the
    y-range higher; the frame is turned off and the y ticks are removed. *)
Theorem micompanyify_bar_timeseries_series autoscale env (data : ref) s hl ascending strfmt kw
    w color :
  heap w !! data = Some (PSeries s) → length (s_rows s) ≠ 1%nat →
  define_colors hl (PSeries s) "bar_timeseries" = Ok color →
  let bars := figure w ++ [CmdPlot (Some "bar") false None color (PSeries s) kw] in
  micompanyify autoscale env data hl (Some "bar_timeseries") ascending strfmt kw w
  = (Ok (),
     mkWorld (heap w ++ squeeze_copy env (PSeries s))
       (bars ++ value_labels (autoscale bars).2 "h"
                  (default (default_strfmt env (PSeries s)) strfmt) s
             ++ [CmdBox false; CmdYticks []])).
Proof.
  intros Hd Hlen Hc bars.
  rewrite (micompanyify_unsqueezed _ _ _ _ _ _ _ _ _ _ Hd eq_refl (squeeze_series_None _ Hlen)).
  rewrite (render_run_unsorted _ _ _ _ _ _ _ _ _ _ _ (squeezed_world_lookup env _ _ _ Hd) Hc)
    by (left; solve_elem).
  unfold dispatch. simpl.
  unfold mbind at 1, M_bind at 1, bind at 1. unfold draw at 1.
  unfold mbind at 1, Draw_bind at 1, dbind at 1. unfold emit at 1.
  rewrite plot_values_above_bar_values by (by right). simpl.
  unfold draw, finish, mbind, Draw_bind, dbind, emit. simpl.
  subst bars. do 2 f_equal. by rewrite <-!app_assoc.
Qed.

Lemma micompanyify_bar_timeseries_series_witness :
  micompanyify limits_0_100 pandas_3 0%nat (HInt (-1)) (Some "bar_timeseries") (Some true) None []
               (fresh_world (PSeries series_3_1_2))
  = (Ok (),
     mkWorld ([PSeries series_3_1_2] ++ [PSeries series_3_1_2])
       (([] ++ [CmdPlot (Some "bar") false None ["lightgray"; "lightgray"; "purple"]
                        (PSeries series_3_1_2) []])
        ++ value_labels (0, qc 100 1) "h" ".2f" series_3_1_2
        ++ [CmdBox false; CmdYticks []])).
Proof.
  apply (micompanyify_bar_timeseries_series limits_0_100 pandas_3 0%nat series_3_1_2 (HInt (-1))
           (Some true) None [] (fresh_world (PSeries series_3_1_2))
           ["lightgray"; "lightgray"; "purple"]).
  - reflexivity.
  - simpl. lia.
  - reflexivity.
Defined.

(** X20.  A line_timeseries chart is the plain plot of the data as it
    is: no sorting, no labels (the label format is not used), the frame
    turned off and all ticks kept. *)
Theorem micompanyify_line_timeseries autoscale env (data : ref) d hl ascending strfmt kw w color :
  heap w !! data = Some d → is_frame d || is_series d = true → squeeze d = None →
  define_colors hl d "line_timeseries" = Ok color →
  micompanyify autoscale env data hl (Some "line_timeseries") ascending strfmt kw w
  = (Ok (),
     mkWorld (heap w ++ squeeze_copy env d)
             (figure w ++ [CmdPlot None false None color d kw; CmdBox false])).
Proof.
  intros Hd Ht Hs Hc.
  rewrite (micompanyify_unsqueezed _ _ _ _ _ _ _ _ _ _ Hd Ht Hs).
  rewrite (render_run_unsorted _ _ _ _ _ _ _ _ _ _ _ (squeezed_world_lookup env _ _ _ Hd) Hc)
    by (left; solve_elem).
  unfold dispatch. simpl. unfold_M. unfold finish, mbind, Draw_bind, dbind. simpl.
  by rewrite <-app_assoc.
Qed.

Lemma micompanyify_line_timeseries_witness :
  micompanyify limits_0_100 pandas_3 0%nat (HInt 0) (Some "line_timeseries") (Some false) (Some ".1%")
               [] (fresh_world (PFrame table_3x2))
  = (Ok (),
     mkWorld ([PFrame table_3x2] ++ [PFrame table_3x2])
             ([] ++ [CmdPlot None false None ["purple"; "lightgray"] (PFrame table_3x2) [];
                     CmdBox false])).
Proof.
  apply (micompanyify_line_timeseries limits_0_100 pandas_3 0%nat (PFrame table_3x2) (HInt 0)
           (Some false) (Some ".1%") [] (fresh_world (PFrame table_3x2))
           ["purple"; "lightgray"]); reflexivity.
Defined.

(** ** Tables *)

Lemma plot_values_above_bar_pairs autoscale fig (s t : Series) strfmt orient textcolor :
  orient = "v" ∨ orient = "h" →
  plot_values_above_bar autoscale (PSeries s) (Some (PSeries t)) strfmt orient textcolor
                        None None fig
  = (Ok (), fig ++ imap (λ i it, spec_label (if decide (orient = "v") then (autoscale fig).1
                                             else (autoscale fig).2)
                                            orient strfmt textcolor None i it.1 it.2)
                        (zip (s_values s) (s_values t))).
Proof.
  intros Ho. unfold plot_values_above_bar.
  rewrite bool_decide_eq_true_2 by done.
  set (lim := if decide (orient = "v") then (autoscale fig).1 else (autoscale fig).2).
  pose proof (label_loop_run lim strfmt orient textcolor None
                (zip (s_values s) (s_values t)) 0 fig) as Hrun.
  assert (prod_map ANum ANum <$> zip (s_values s) (s_values t)
          = zip (ANum <$> s_values s) (ANum <$> s_values t)) as Hz.
  { generalize (s_values s) (s_values t).
    induction l as [|x l IH]; intros [|y l']; simpl; [done..|]. by rewrite IH. }
  rewrite Hz in Hrun. clear Hz.
  unfold mbind, Draw_bind, dbind, dret, draise, dlift, get_xlim, get_ylim, drawn.
  subst lim. destruct Ho as [-> | ->]; simpl in *; exact Hrun.
Qed.

Lemma cumsum_lookup l i : (i < length l)%nat → cumsum l !! i = Some (Qc_sum (take (S i) l)).
Proof.
  intros Hi. unfold cumsum. rewrite cumsum_from_lookup by done. f_equal. ring.
Qed.

Lemma midpoint_lookup l i v :
  l !! i = Some v →
  default 0 (zip_with (λ x y, (x + y) / 2) (running_offsets l) (cumsum l) !! i)
  = segment_middle l i.
Proof.
  intros Hv. pose proof (lookup_lt_Some _ _ _ Hv) as Hi.
  rewrite lookup_zip_with, running_offsets_lookup, cumsum_lookup by done. simpl.
  unfold segment_middle. rewrite Hv. simpl.
  rewrite (take_S_r _ _ _ Hv), Qc_sum_app. simpl. field. discriminate.
Qed.

Lemma composition_rows (d : DataFrame) (i : nat) :
  frame_wf d → (i < length (df_index d))%nat →
  zip ((frame_row (mkFrame (df_datetime d) (df_coltime d) (df_index d)
                     (zip_with (λ c c' : label * list Qc,
                                  (c.1, zip_with (λ x y, (x + y) / 2) c.2 c'.2))
                        ((λ c, (c.1, running_offsets c.2)) <$> df_columns d)
                        ((λ c, (c.1, cumsum c.2)) <$> df_columns d))) i).*2)
      ((frame_row d i).*2)
  = (λ c, (segment_middle c.2 i, default 0 (c.2 !! i))) <$> df_columns d.
Proof.
  intros Hwf Hi. unfold frame_row. simpl. unfold frame_wf in Hwf.
  induction (df_columns d) as [|c cols IH]; [done|].
  apply Forall_cons in Hwf as [Hc Hwf]. cbn. rewrite <-(IH Hwf). f_equal.
  destruct (lookup_lt_is_Some_2 c.2 i) as [v Hv]; [lia|].
  by rewrite (midpoint_lookup _ _ _ Hv).
Qed.

(** X21.  The whole drawing of a composition comparison: the stacked
    horizontal bars of the transposed table, and, for the highlighted row,
    a white label with its value in each bar, at the middle of its segment
    (moved right by 2.5% of the x-range); the frame is turned off and the x
    ticks are removed.  The table is never sorted. *)
Theorem micompanyify_composition_comparison autoscale env (data : ref) d h ascending strfmt kw w
    color i :
  heap w !! data = Some (PFrame d) → squeeze (PFrame d) = None → frame_wf d →
  py_position (length (df_index d)) h = Ok i →
  define_colors (HInt h) (PFrame d) "composition_comparison" = Ok color →
  let bars := figure w ++ [CmdPlot (Some "barh") true None color (pd_transpose (PFrame d)) kw] in
  micompanyify autoscale env data (HInt h) (Some "composition_comparison") ascending strfmt kw w
  = (Ok (),
     mkWorld (heap w ++ squeeze_copy env (PFrame d))
       (bars ++ composition_labels (autoscale bars).1
                  (default (default_strfmt env (PFrame d)) strfmt) d i
             ++ [CmdBox false; CmdXticks []])).
Proof.
  intros Hd Hs Hwf Hi Hc bars.
  rewrite (micompanyify_unsqueezed _ _ _ _ _ _ _ _ _ _ Hd eq_refl Hs).
  rewrite (render_run_unsorted _ _ _ _ _ _ _ _ _ _ _ (squeezed_world_lookup env _ _ _ Hd) Hc)
    by (left; solve_elem).
  pose proof (py_position_lt _ _ _ Hi) as Hlt.
  unfold dispatch. simpl.
  unfold mbind at 1, M_bind at 1, bind at 1. unfold draw at 1.
  unfold draw_composition_comparison.
  unfold mbind at 1, Draw_bind at 1, dbind at 1. unfold emit at 1.
  unfold mbind, Draw_bind, dbind, dlift. simpl. rewrite Hi. simpl.
  rewrite plot_values_above_bar_pairs by (by left). simpl.
  unfold s_values. cbn [s_rows].
  rewrite (composition_rows d i Hwf Hlt), imap_fmap.
  unfold draw, finish, mbind, Draw_bind, dbind, emit. simpl.
  subst bars. unfold composition_labels. do 2 f_equal. by rewrite <-!app_assoc.
Qed.

Lemma micompanyify_composition_comparison_witness :
  micompanyify limits_0_100 pandas_3 0%nat (HInt 1) (Some "composition_comparison") (Some true) None []
               (fresh_world (PFrame table_2x3))
  = (Ok (),
     mkWorld ([PFrame table_2x3] ++ [PFrame table_2x3])
       (([] ++ [CmdPlot (Some "barh") true None ["lightgray"; "purple"; "lightgray"]
                        (pd_transpose (PFrame table_2x3)) []])
        ++ composition_labels (0, qc 100 1) ".2f" table_2x3 1
        ++ [CmdBox false; CmdXticks []])).
Proof.
  apply (micompanyify_composition_comparison limits_0_100 pandas_3 0%nat table_2x3 1%Z (Some true) None
           [] (fresh_world (PFrame table_2x3)) ["lightgray"; "purple"; "lightgray"] 1%nat).
  - reflexivity.
  - reflexivity.
  - repeat constructor.
  - reflexivity.
  - reflexivity.
Defined.

(** X22.  In a composition comparison the highlight is a column position
    for the colours and a row position for the label.  A highlight that
    names a column but no row lets the bars be drawn and then raises
    IndexError. *)
Theorem micompanyify_composition_highlight_no_row autoscale env (data : ref) d h ascending strfmt
    kw w color :
  heap w !! data = Some (PFrame d) → squeeze (PFrame d) = None →
  define_colors (HInt h) (PFrame d) "composition_comparison" = Ok color →
  ¬ (- Z.of_nat (length (df_index d)) ≤ h < Z.of_nat (length (df_index d)))%Z →
  micompanyify autoscale env data (HInt h) (Some "composition_comparison") ascending strfmt kw w
  = (Raise IndexError,
     mkWorld (heap w ++ squeeze_copy env (PFrame d))
       (figure w ++ [CmdPlot (Some "barh") true None color (pd_transpose (PFrame d)) kw])).
Proof.
  intros Hd Hs Hc Hh.
  rewrite (micompanyify_unsqueezed _ _ _ _ _ _ _ _ _ _ Hd eq_refl Hs).
  rewrite (render_run_unsorted _ _ _ _ _ _ _ _ _ _ _ (squeezed_world_lookup env _ _ _ Hd) Hc)
    by (left; solve_elem).
  assert (py_position (length (df_index d)) h = Raise IndexError) as Hp.
  { unfold py_position. repeat case_decide; try done; lia. }
  unfold dispatch. simpl.
  unfold mbind at 1, M_bind at 1, bind at 1. unfold draw at 1.
  unfold draw_composition_comparison.
  unfold mbind at 1, Draw_bind at 1, dbind at 1. unfold emit at 1.
  unfold mbind, Draw_bind, dbind, dlift. simpl. by rewrite Hp.
Qed.

Lemma micompanyify_composition_highlight_no_row_witness :
  micompanyify limits_0_100 pandas_3 0%nat (HInt 2) (Some "composition_comparison") None None []
               (fresh_world (PFrame table_2x3))
  = (Raise IndexError,
     mkWorld ([PFrame table_2x3] ++ [PFrame table_2x3])
       ([] ++ [CmdPlot (Some "barh") true None ["lightgray"; "lightgray"; "purple"]
                       (pd_transpose (PFrame table_2x3)) []])).
Proof.
  apply (micompanyify_composition_highlight_no_row limits_0_100 pandas_3 0%nat table_2x3 2%Z None None
           [] (fresh_world (PFrame table_2x3)) ["lightgray"; "lightgray"; "purple"]).
  - reflexivity.
  - reflexivity.
  - reflexivity.
  - simpl. lia.
Defined.

Lemma is_text_spec_label lim orient strfmt textcolor nudge i v dv :
  is_text (spec_label lim orient strfmt textcolor nudge i v dv).
Proof. unfold spec_label. by case_decide. Qed.

(** The labels of one Series: one text per row. *)
Lemma plot_values_above_bar_one_per_row autoscale fig (s : Series) strfmt orient textcolor
    (nudge : option (nat * nat)) :
  orient = "v" ∨ orient = "h" →
  ∃ labels,
    plot_values_above_bar autoscale (PSeries s) None strfmt orient textcolor
                          (fst <$> nudge) (snd <$> nudge) fig
    = (Ok (), fig ++ labels)
    ∧ Forall is_text labels ∧ length labels = length (s_rows s).
Proof.
  intros Ho. unfold plot_values_above_bar.
  rewrite bool_decide_eq_true_2 by (destruct nudge; simpl; split; intros [? ?]; eauto).
  set (lim := if decide (orient = "v") then (autoscale fig).1 else (autoscale fig).2).
  pose proof (label_loop_run lim strfmt orient textcolor nudge
                ((λ v, (v, v)) <$> s_values s) 0 fig) as Hrun.
  assert (prod_map ANum ANum <$> ((λ v, (v, v)) <$> s_values s)
          = zip (ANum <$> s_values s) (ANum <$> s_values s)) as Hz.
  { generalize (s_values s). induction l as [|x l IH]; [done|]. cbn. f_equal. exact IH. }
  rewrite Hz in Hrun. clear Hz.
  exists (imap (λ i it, spec_label lim orient strfmt textcolor nudge (0 + i) it.1 it.2)
               ((λ v, (v, v)) <$> s_values s)).
  split; [|split].
  - unfold mbind, Draw_bind, dbind, dret, draise, dlift, get_xlim, get_ylim, drawn.
    subst lim. destruct Ho as [-> | ->]; simpl in *; exact Hrun.
  - apply Forall_forall. intros c Hc. apply elem_of_lookup_imap in Hc as (i & it & -> & _).
    apply is_text_spec_label.
  - rewrite length_imap, length_fmap. unfold s_values. by rewrite length_fmap.
Qed.

Lemma filter_label_absent (cols : list (label * list Qc)) l :
  l ∉ cols.*1 → filter (λ c, c.1 = l) cols = [].
Proof.
  induction cols as [|c0 cols IH]; intros Hl; [done|].
  rewrite filter_cons. simpl in Hl. apply not_elem_of_cons in Hl as [Hne Hl].
  rewrite decide_False by done. by apply IH.
Qed.

Lemma filter_label_unique (cols : list (label * list Qc)) c :
  NoDup cols.*1 → c ∈ cols → filter (λ c0, c0.1 = c.1) cols = [c].
Proof.
  induction cols as [|c0 cols IH]; intros Hnd Hin; [by apply elem_of_nil in Hin|].
  simpl in Hnd. apply NoDup_cons in Hnd as [Hc0 Hnd].
  rewrite filter_cons. apply elem_of_cons in Hin as [->|Hin].
  - rewrite decide_True by done. f_equal. by apply filter_label_absent.
  - rewrite decide_False; [by apply IH|].
    intros Heq. apply Hc0. rewrite Heq. by apply list_elem_of_fmap_2.
Qed.

Lemma getitem_column_unique d c :
  NoDup (df_columns d).*1 → c ∈ df_columns d →
  getitem_column d c.1 = PSeries (column_series d c).
Proof. intros Hnd Hin. unfold getitem_column. by rewrite filter_label_unique. Qed.

Lemma label_columns_one_per_cell autoscale d strfmt orient :
  orient = "v" ∨ orient = "h" → frame_wf d → NoDup (df_columns d).*1 →
  ∀ cols i fig, cols ⊆ df_columns d →
  ∃ labels,
    label_columns autoscale d strfmt orient i cols.*1 fig = (Ok (), fig ++ labels)
    ∧ Forall is_text labels
    ∧ length labels = (length cols * length (df_index d))%nat.
Proof.
  intros Ho Hwf Hnd. induction cols as [|c cols IH]; intros i fig Hsub.
  - exists []. simpl. by rewrite app_nil_r.
  - cbn [fmap list_fmap label_columns].
    assert (c ∈ df_columns d) as Hc by (apply Hsub, list_elem_of_here).
    rewrite (getitem_column_unique d c Hnd Hc).
    destruct (plot_values_above_bar_one_per_row autoscale fig (column_series d c) strfmt orient
                "black" (Some (i, ncols d)) Ho) as (l1 & Hrun & Ht1 & Hl1).
    simpl in Hrun. unfold mbind, Draw_bind, dbind. rewrite Hrun.
    destruct (IH (S i) (fig ++ l1)) as (l2 & Hrun2 & Ht2 & Hl2).
    { intros x Hx. apply Hsub. by apply list_elem_of_further. }
    exists (l1 ++ l2). split; [|split].
    + fold (@fmap list _ _ _ (@fst label (list Qc)) cols). rewrite Hrun2. by rewrite app_assoc.
    + by apply Forall_app.
    + rewrite length_app, Hl1, Hl2. simpl. rewrite length_zip.
      unfold frame_wf in Hwf. rewrite Forall_forall in Hwf. rewrite (Hwf c Hc). lia.
Qed.

(** X23.  A bar chart of a table draws the horizontal bars of all columns,
    then one label for every cell, and turns the frame and the x ticks off;
    the table is never sorted. *)
Theorem micompanyify_bar_table autoscale env (data : ref) d hl ascending strfmt kw w color :
  heap w !! data = Some (PFrame d) → squeeze (PFrame d) = None →
  frame_wf d → NoDup (df_columns d).*1 →
  define_colors hl (PFrame d) "bar" = Ok color →
  ∃ labels,
    micompanyify autoscale env data hl (Some "bar") ascending strfmt kw w
    = (Ok (),
       mkWorld (heap w ++ squeeze_copy env (PFrame d))
         (figure w ++ [CmdPlot (Some "barh") false None color (PFrame d) kw]
                   ++ labels ++ [CmdBox false; CmdXticks []]))
    ∧ Forall is_text labels
    ∧ length labels = (ncols d * length (df_index d))%nat.
Proof.
  intros Hd Hs Hwf Hnd Hc.
  rewrite (micompanyify_unsqueezed _ _ _ _ _ _ _ _ _ _ Hd eq_refl Hs).
  rewrite (render_run_unsorted _ _ _ _ _ _ _ _ _ _ _ (squeezed_world_lookup env _ _ _ Hd) Hc)
    by (right; by left).
  destruct (label_columns_one_per_cell autoscale d (default (default_strfmt env (PFrame d)) strfmt)
              "v" (or_introl eq_refl) Hwf Hnd (df_columns d) 0%nat
              (figure w ++ [CmdPlot (Some "barh") false None color (PFrame d) kw]))
    as (labels & Hrun & Ht & Hl); [done|].
  exists labels. split; [|done].
  unfold dispatch. simpl.
  unfold mbind at 1, M_bind at 1, bind at 1. unfold draw at 1.
  unfold mbind at 1, Draw_bind at 1, dbind at 1. unfold emit at 1.
  unfold label_bars. cbn [figure heap]. rewrite Hrun. simpl.
  unfold draw, finish, mbind, Draw_bind, dbind, emit. simpl.
  do 2 f_equal. by rewrite <-!app_assoc.
Qed.

Lemma micompanyify_bar_table_witness :
  ∃ labels,
    micompanyify limits_0_100 pandas_3 0%nat (HInt (-1)) (Some "bar") (Some true) None []
                 (fresh_world (PFrame table_2x3))
    = (Ok (),
       mkWorld ([PFrame table_2x3] ++ [PFrame table_2x3])
         ([] ++ [CmdPlot (Some "barh") false None ["lightgray"; "lightgray"; "purple"]
                         (PFrame table_2x3) []]
             ++ labels ++ [CmdBox false; CmdXticks []]))
    ∧ Forall is_text labels
    ∧ length labels = (ncols table_2x3 * length (df_index table_2x3))%nat.
Proof.
  apply (micompanyify_bar_table limits_0_100 pandas_3 0%nat table_2x3 (HInt (-1)) (Some true) None []
           (fresh_world (PFrame table_2x3)) ["lightgray"; "lightgray"; "purple"]).
  - reflexivity.
  - reflexivity.
  - repeat constructor.
  - apply (bool_decide_unpack _). vm_compute. exact I.
  - reflexivity.
Defined.

(** ** The waterfall as a whole *)

Lemma zip_rows_values f a b : (zip_rows f a b).*2 = zip_with f a.*2 b.*2.
Proof.
  unfold zip_rows. revert b. induction a as [|x a IH]; intros [|y b]; simpl; [done..|].
  by rewrite IH.
Qed.

Lemma offsets_plus_values l : zip_with Qcplus l (running_offsets l) = cumsum l.
Proof.
  apply list_eq. intros i. rewrite lookup_zip_with.
  destruct (l !! i) as [v|] eqn:Hv; simpl.
  - pose proof (lookup_lt_Some _ _ _ Hv) as Hi.
    rewrite running_offsets_lookup, cumsum_lookup by done. simpl.
    rewrite (Qc_sum_take_S _ _ _ Hv). f_equal. ring.
  - symmetry. apply lookup_ge_None. unfold cumsum. rewrite cumsum_from_length.
    by apply lookup_ge_None.
Qed.

Lemma waterfall_positions s :
  TOTAL ∉ s_labels s →
  (zip_rows Qcplus (s_rows (waterfall_table s)) (s_rows (waterfall_offsets s))).*2
  = cumsum (s_values s) ++ [Qc_sum (s_values s)].
Proof.
  intros Ht. rewrite zip_rows_values.
  unfold waterfall_table, waterfall_offsets, loc_set_rows. cbn [s_rows].
  fold (s_labels s). rewrite offsets_labels, !decide_False by done.
  rewrite !fmap_app. fold (s_values s).
  rewrite snd_zip by (unfold s_labels, s_values; rewrite running_offsets_length, !length_fmap; lia).
  rewrite zip_with_app by (by rewrite running_offsets_length).
  rewrite offsets_plus_values. simpl. do 2 f_equal. ring.
Qed.

Lemma in_order_labels ascending s : s_labels (in_order ascending s) ≡ₚ s_labels s.
Proof.
  destruct ascending as [[|]|]; [| |done]; unfold s_labels, in_order; cbn [s_rows];
    apply fmap_Permutation; [|rewrite reverse_Permutation]; apply sort_rows_perm.
Qed.

(** X24.  The whole drawing of a (build-down) waterfall of a Series with two
    or more values, all different when the Series is sorted and none of them
    labelled 'total': the stacked horizontal bars of the Series in the order
    asked for (by increasing value, by decreasing value, or as it is) with
    the 'total' row added, each starting at its offset, in the assigned
    colours plus gray for the total; then one label per bar, at the running
    total where the bar ends; then the frame is turned off and the x ticks
    are removed. *)
Theorem micompanyify_waterfall_series autoscale env (data : ref) s hl ascending strfmt kw w color :
  heap w !! data = Some (PSeries s) → (2 ≤ length (s_rows s))%nat →
  NoDup (s_values s) ∨ ascending = None → TOTAL ∉ s_labels s →
  define_colors hl (PSeries s) "waterfall" = Ok color →
  let s' := in_order ascending s in
  let bars := figure w ++ [CmdPlot (Some "barh") true (Some (PSeries (waterfall_offsets s')))
                                   (color ++ ["gray"]) (PSeries (waterfall_table s')) kw] in
  observe (micompanyify autoscale env data hl (Some "waterfall") ascending strfmt kw w)
  = (Ok (),
     bars ++ waterfall_labels (autoscale bars).1
               (default (default_strfmt env (PSeries s)) strfmt) s'
          ++ [CmdBox false; CmdXticks []]).
Proof.
  intros Hd Hn Hnd Ht Hc.
  assert (TOTAL ∉ s_labels (in_order ascending s)) as Ht' by (by rewrite in_order_labels).
  revert Ht'. rewrite <-(sorted_as_in_order env ascending s Hnd). intros Ht' s' bars.
  assert (length (s_rows s) ≠ 1%nat) as Hlen by lia.
  rewrite (micompanyify_unsqueezed _ _ _ _ _ _ _ _ _ _ Hd eq_refl (squeeze_series_None _ Hlen)).
  pose proof (squeezed_world_lookup env _ _ _ Hd) as Hd'.
  assert (∀ (r : ref) h, h !! r = Some (PSeries s') →
    observe ((dispatch autoscale "waterfall" r (PSeries s') hl color
                (default (default_strfmt env (PSeries s)) strfmt) "v" kw;;
              draw (finish "waterfall" "v")) (mkWorld h (figure w)))
    = (Ok (),
       bars ++ waterfall_labels (autoscale bars).1
                 (default (default_strfmt env (PSeries s)) strfmt) s'
            ++ [CmdBox false; CmdXticks []])) as Htail.
  { intros r h Hr. unfold dispatch. simpl.
    assert (r < length h)%nat as Hlt by (by eapply lookup_lt_Some).
    unfold mbind at 1, M_bind at 1, bind at 1.
    unfold mbind at 1, M_bind at 1, bind at 1.
    rewrite (plot_waterfall_series_run (mkWorld h (figure w)) r s' (Some color) false kw Hr).
    cbn [default]. unfold label_waterfall.
    erewrite bind_ok; [|apply deref_run; cbn [heap]; by apply list_lookup_insert_eq].
    rewrite lift_bind. cbn [pd_add pd_zip_with]. unfold draw at 1. cbn [figure heap].
    rewrite plot_values_above_bar_pairs by (by left). simpl.
    pose proof (waterfall_positions s' Ht') as Hpos.
    unfold waterfall_table, waterfall_offsets in Hpos. cbn [s_rows] in Hpos.
    unfold s_values at 1. cbn [s_rows]. rewrite Hpos. clear Hpos.
    assert (s_values (waterfall_table s') = s_values s' ++ [Qc_sum (s_values s')]) as ->.
    { rewrite (waterfall_table_fresh s' Ht'). unfold s_values. cbn [s_rows].
      by rewrite fmap_app. }
    unfold observe, draw, finish, mbind, Draw_bind, dbind, emit. simpl.
    subst bars. unfold waterfall_labels. f_equal. by rewrite <-!app_assoc. }
  destruct ascending as [a|].
  - rewrite (render_sorted_run _ _ _ _ _ _ _ _ _ _ _ Hd' Hc)
      by (apply (bool_decide_unpack _); vm_compute; exact I).
    apply Htail. apply lookup_snoc_length.
  - rewrite (render_run_unsorted _ _ _ _ _ _ _ _ _ _ _ Hd' Hc) by (right; by right).
    apply Htail. exact Hd'.
Qed.

Lemma micompanyify_waterfall_series_witness :
  observe (micompanyify limits_0_100 pandas_3 0%nat (HInt (-1)) (Some "waterfall") (Some true) None []
                        (fresh_world (PSeries series_10_m3_5)))
  = (Ok (),
     ([] ++ [CmdPlot (Some "barh") true
                     (Some (PSeries (waterfall_offsets (in_order (Some true) series_10_m3_5))))
                     (["lightgray"; "lightgray"; "purple"] ++ ["gray"])
                     (PSeries (waterfall_table (in_order (Some true) series_10_m3_5))) []])
     ++ waterfall_labels (0, qc 100 1) ".2f" (in_order (Some true) series_10_m3_5)
     ++ [CmdBox false; CmdXticks []]).
Proof.
  apply (micompanyify_waterfall_series limits_0_100 pandas_3 0%nat series_10_m3_5 (HInt (-1)) (Some true)
           None [] (fresh_world (PSeries series_10_m3_5)) ["lightgray"; "lightgray"; "purple"]).
  - reflexivity.
  - simpl. lia.
  - left. apply (bool_decide_unpack _). vm_compute. exact I.
  - apply (bool_decide_unpack _). vm_compute. exact I.
  - reflexivity.
Defined.
